(** * Mitrastar GPT-2541GNAC integration: a shallow embedding

    The development follows the three Python modules of the integration:

    - [router.py]: the SSH session multiplexer
      ([_execute_multiple_commands]), the three text extractors
      ([_parse_lan_stats], [_parse_wan_stats], [_parse_laser_stats]) and
      the snapshot assembly ([get_all_data]);
    - [__init__.py]: the coordinator callback ([async_update_data]);
    - [sensor.py]: the speed sensor ([MitrastarSpeedSensor.native_value]).

    Text is a [string] of code points below 256.  Python dictionaries are
    [gmap]s keyed by [string].  Code that may raise returns a [res]. *)

From Stdlib Require Import ZArith Lia List Bool Ascii String QArith Qabs.
From stdpp Require Import base option gmap strings.

Local Open Scope string_scope.

(** ** Exceptions and results *)

(** The exception classes the three modules raise, catch or let through. *)
Inductive exn : Type :=
| TimeoutError            (* asyncio.TimeoutError *)
| SSHError                (* asyncssh.Error and its subclasses *)
| OSError                 (* socket-level failures, plain Exception *)
| ValueError              (* float() or int() on a literal it refuses *)
| TypeError               (* arithmetic on a str *)
| IndexError              (* match.group(n) for a group that is not there *)
| RecursionError          (* the interpreter's recursion limit *)
| UpdateFailed (cause : exn).

Inductive res (A : Type) : Type :=
| Ret (a : A)
| Raise (e : exn).
Arguments Ret {A} a.
Arguments Raise {A} e.

(** Sequencing stops at the first exception; the notation is stdpp's
    [x ← m; k]. *)
#[global] Instance res_ret : MRet res := fun _ a => Ret a.
#[global] Instance res_bind : MBind res := fun _ _ f m =>
  match m with
  | Ret a => f a
  | Raise e => Raise e
  end.

(** ** Character classes of Python's [re] on [str] patterns *)

Module Cls.

Definition code (c : ascii) : N := N_of_ascii c.

Definition between (lo hi : N) (c : ascii) : bool :=
  ((lo <=? code c) && (code c <=? hi))%N.

(** [\d]: the decimal digits; below 256 these are [0-9] only. *)
Definition digit (c : ascii) : bool := between 48 57 c.

(** [\s]: [str.isspace]; below 256 these are TAB..CR, FS..US, SPACE,
    NEL and NBSP. *)
Definition space (c : ascii) : bool :=
  between 9 13 c || between 28 32 c
  || (code c =? 133)%N || (code c =? 160)%N.

(** [\w]: [str.isalnum] or the underscore; below 256 these are the
    ASCII letters and digits, the underscore, the Latin-1 letters and
    the Latin-1 superscript digits and vulgar fractions. *)
Definition word (c : ascii) : bool :=
  between 48 57 c || between 65 90 c || between 97 122 c
  || (code c =? 95)%N
  || (code c =? 170)%N || (code c =? 181)%N || (code c =? 186)%N
  || (code c =? 178)%N || (code c =? 179)%N || (code c =? 185)%N
  || between 188 190 c
  || between 192 214 c || between 216 246 c || between 248 255 c.

(** [\S]. *)
Definition nonspace (c : ascii) : bool := negb (space c).

(** The bracket class of the laser patterns: minus, digit or dot. *)
Definition numch (c : ascii) : bool :=
  (code c =? 45)%N || digit c || (code c =? 46)%N.

Definition just (x : ascii) (c : ascii) : bool := Ascii.eqb x c.

End Cls.

(** ** A backtracking matcher for the regular expressions of [router.py]

    The fragment is the one the source uses: single characters, the
    greedy one-or-more repetition of a character class, concatenation,
    alternation and capturing groups.  The matcher is written in
    continuation-passing style so that it backtracks the way [re] does:
    a greedy repetition first tries the longest run, an alternation tries
    its branches from left to right. *)

Inductive regex : Type :=
| Eps
| Chr (p : ascii -> bool)
| Plus (p : ascii -> bool)
| Seq (r1 r2 : regex)
| Alt (r1 r2 : regex)
| Group (r : regex).

(** The captured groups, in the order their groups close. *)
Abbreviation captures := (list string).

Section Matcher.

Context {R : Type}.

Abbreviation cont := (string -> captures -> option R).

Definition or_else (a : option R) (b : option R) : option R :=
  match a with
  | Some r => Some r
  | None => b
  end.

(** [p+] against [s]: at least one character, then as many as
    possible, giving characters back one at a time. *)
Fixpoint plus_run (p : ascii -> bool) (s : string) (k : string -> option R)
  : option R :=
  match s with
  | String c s' =>
      if p c then or_else (plus_run p s' k) (k s') else None
  | EmptyString => None
  end.

(** The first [n] characters of [s]. *)
Fixpoint take (n : nat) (s : string) : string :=
  match n, s with
  | S n', String c s' => String c (take n' s')
  | _, _ => EmptyString
  end.

(** The text between the position [s] and the later position [s']. *)
Definition consumed (s s' : string) : string :=
  take (String.length s - String.length s') s.

Fixpoint run (r : regex) (s : string) (caps : captures) (k : cont)
  : option R :=
  match r with
  | Eps => k s caps
  | Chr p =>
      match s with
      | String c s' => if p c then k s' caps else None
      | EmptyString => None
      end
  | Plus p => plus_run p s (fun s' => k s' caps)
  | Seq r1 r2 => run r1 s caps (fun s' caps' => run r2 s' caps' k)
  | Alt r1 r2 => or_else (run r1 s caps k) (run r2 s caps k)
  | Group r' =>
      run r' s caps (fun s' caps' => k s' (caps' ++ [consumed s s'])%list)
  end.

End Matcher.

(** [re.match]: anchored at the start of the text, free at its end. *)
Definition re_match (r : regex) (s : string) : option captures :=
  run r s [] (fun _ caps => Some caps).

(** [re.search]: the leftmost position at which [re.match] succeeds. *)
Fixpoint re_search (r : regex) (s : string) : option captures :=
  match re_match r s with
  | Some caps => Some caps
  | None =>
      match s with
      | String _ s' => re_search r s'
      | EmptyString => None
      end
  end.

(** A literal piece of a pattern. *)
Fixpoint lit (t : string) : regex :=
  match t with
  | EmptyString => Eps
  | String c t' => Seq (Chr (Cls.just c)) (lit t')
  end.

Fixpoint seqs (rs : list regex) : regex :=
  match rs with
  | [] => Eps
  | r :: rs' => Seq r (seqs rs')
  end.

Definition ws : regex := Plus Cls.space.
Definition int_group : regex := Group (Plus Cls.digit).

(** [r"\s+(\w+)\s+(Up|Disabled|Down)\s+(\d+)\s+(\d+)\s+(\d+)\s+(\d+)\s+(\d+)\s+(\d+)\s+(\d+)\s+(\d+)"] *)
Definition lan_re : regex :=
  seqs [ ws; Group (Plus Cls.word);
         ws; Group (Alt (lit "Up") (Alt (lit "Disabled") (lit "Down")));
         ws; int_group; ws; int_group; ws; int_group; ws; int_group;
         ws; int_group; ws; int_group; ws; int_group; ws; int_group ].

(** [r"\s+(\S+)\s+(\d+)\s+(\d+)\s+(\d+)\s+(\d+)\s+(\d+)\s+(\d+)\s+(\d+)\s+(\d+)\s+(\d+)"] *)
Definition wan_re : regex :=
  seqs [ ws; Group (Plus Cls.nonspace);
         ws; int_group;
         ws; int_group; ws; int_group; ws; int_group; ws; int_group;
         ws; int_group; ws; int_group; ws; int_group; ws; int_group ].

(** [label + r"\s+=\s+([-\d.]+)\s+" + unit], the shape shared by the
    five laser patterns. *)
Definition laser_re (label unit : string) : regex :=
  seqs [ lit label; ws; Chr (Cls.just "="); ws; Group (Plus Cls.numch);
         ws; lit unit ].

(** ** Values and builtins *)

(** A metric value: [str], [int] or [float].  A float is kept as the
    exact rational its literal denotes; Python rounds that rational to
    the nearest binary64, which no statement below depends on. *)
Inductive value : Type :=
| VStr (s : string)
| VInt (n : Z)
| VFloat (q : Q).

(** A parsed snapshot: the Python [dict] from metric key to value. *)
Abbreviation data := (gmap string value).

Definition digit_val (c : ascii) : Z := Z.of_N (Cls.code c) - 48.

Fixpoint digits_val (acc : Z) (s : string) : option Z :=
  match s with
  | EmptyString => Some acc
  | String c s' =>
      if Cls.digit c then digits_val (10 * acc + digit_val c) s' else None
  end.

(** [sys.int_info.default_max_str_digits]: the longest decimal literal
    [int] converts; a longer one is a [ValueError], leading zeros
    counted. *)
Definition int_max_str_digits : nat := 4300.

(** [int(s)] on a non-empty run of decimal digits.  Python's [int] also
    accepts a sign, surrounding blanks and underscores; every other
    string is a [ValueError] here, which can only make a no-raise
    property harder to prove.  Integers are unbounded, as in Python, but
    a literal of more than [int_max_str_digits] digits is refused. *)
Definition py_int (s : string) : res Z :=
  match s with
  | EmptyString => Raise ValueError
  | _ =>
      if (int_max_str_digits <? String.length s)%nat then Raise ValueError
      else match digits_val 0 s with
           | Some n => Ret n
           | None => Raise ValueError
           end
  end.

(** The digits of [s] up to its first dot, and what follows that dot. *)
Fixpoint split_dot (s : string) : string * option string :=
  match s with
  | EmptyString => (EmptyString, None)
  | String c s' =>
      if Cls.just "." c then (EmptyString, Some s')
      else let '(a, b) := split_dot s' in (String c a, b)
  end.

Definition unsigned_float (s : string) : res Q :=
  let '(ip, fp) := split_dot s in
  let fp := default EmptyString fp in
  match digits_val 0 ip, digits_val 0 fp with
  | Some i, Some f =>
      if (String.length ip + String.length fp =? 0)%nat then Raise ValueError
      else
        let den := Z.to_pos (10 ^ Z.of_nat (String.length fp)) in
        Ret (Qmake (i * Zpos den + f) den)
  | _, _ => Raise ValueError
  end.

(** [float(s)] on the strings the laser patterns can capture (minus
    signs, digits and dots): an optional sign, then digits with at most
    one dot and at least one digit; anything else is a [ValueError]. *)
Definition py_float (s : string) : res Q :=
  match s with
  | String "-" s' => q ← unsigned_float s'; Ret (Qopp q)
  | String "+" s' => unsigned_float s'
  | _ => unsigned_float s
  end.

Definition newline : ascii := ascii_of_nat 10.

(** [s.split("\n")]: never empty, one more piece than there are
    newlines. *)
Fixpoint split_lines (s : string) : list string :=
  match s with
  | EmptyString => [EmptyString]
  | String c s' =>
      if Ascii.eqb c newline then EmptyString :: split_lines s'
      else match split_lines s' with
           | l :: ls => String c l :: ls
           | [] => [String c EmptyString]
           end
  end.

(** [needle in hay]. *)
Fixpoint contains (needle hay : string) : bool :=
  if String.prefix needle hay then true
  else match hay with
       | String _ hay' => contains needle hay'
       | EmptyString => false
       end.

(** A loop over a list whose body may raise. *)
Fixpoint for_each {S A} (body : S -> A -> res S) (st : S) (xs : list A)
  : res S :=
  match xs with
  | [] => Ret st
  | x :: xs' => st' ← body st x; for_each body st' xs'
  end.

(** ** The Output Parser of [router.py] *)

(** [current_section]: [None], ["rx"] or ["tx"]. *)
Inductive section_tag : Type := Rx | Tx.

Definition section_name (sec : section_tag) : string :=
  match sec with
  | Rx => "rx"
  | Tx => "tx"
  end.

(** The eight counters of a row, in the order of their groups. *)
Record counters : Type := Counters {
  total_bytes : Z;
  total_pkts : Z;
  errors : Z;
  drops : Z;
  mcast_bytes : Z;
  mcast_pkts : Z;
  ucast_pkts : Z;
  bcast_pkts : Z
}.

(** The eight numeric assignments [data[f"{key_prefix}_..."] = ...],
    in source order. *)
Definition store_counters (key_prefix : string) (c : counters) (d : data)
  : data :=
  <[key_prefix +:+ "_broadcast_packets" := VInt (bcast_pkts c)]>
  (<[key_prefix +:+ "_unicast_packets" := VInt (ucast_pkts c)]>
  (<[key_prefix +:+ "_multicast_packets" := VInt (mcast_pkts c)]>
  (<[key_prefix +:+ "_multicast_bytes" := VInt (mcast_bytes c)]>
  (<[key_prefix +:+ "_drops" := VInt (drops c)]>
  (<[key_prefix +:+ "_errors" := VInt (errors c)]>
  (<[key_prefix +:+ "_total_packets" := VInt (total_pkts c)]>
  (<[key_prefix +:+ "_total_bytes" := VInt (total_bytes c)]> d))))))).

(** [int(match.group(3))] .. [int(match.group(10))]. *)
Definition read_counters (g3 g4 g5 g6 g7 g8 g9 g10 : string) : res counters :=
  a ← py_int g3; b ← py_int g4; c ← py_int g5; d ← py_int g6;
  e ← py_int g7; f ← py_int g8; g ← py_int g9; h ← py_int g10;
  Ret (Counters a b c d e f g h).

(** The body of [if match and current_section:] in [_parse_lan_stats]. *)
Definition lan_record (d : data) (sec : section_tag) (caps : captures)
  : res data :=
  match caps with
  | [interface; status; g3; g4; g5; g6; g7; g8; g9; g10] =>
      c ← read_counters g3 g4 g5 g6 g7 g8 g9 g10;
      let key_prefix := "lan_" +:+ interface +:+ "_" +:+ section_name sec in
      Ret (store_counters key_prefix c
             (<[key_prefix +:+ "_status" := VStr status]> d))
  | _ => Raise IndexError
  end.

(** The body of [if match and current_section:] in [_parse_wan_stats]. *)
Definition wan_record (d : data) (sec : section_tag) (caps : captures)
  : res data :=
  match caps with
  | [interface; vlan_id; g3; g4; g5; g6; g7; g8; g9; g10] =>
      c ← read_counters g3 g4 g5 g6 g7 g8 g9 g10;
      let key_prefix := "wan_" +:+ interface +:+ "_" +:+ section_name sec in
      Ret (store_counters key_prefix c
             (<[key_prefix +:+ "_vlan_id" := VStr vlan_id]> d))
  | _ => Raise IndexError
  end.

(** The loop state: the dictionary being filled and [current_section]. *)
Abbreviation pstate := (data * option section_tag)%type.

(** One iteration of [for line in lines:], for either extractor. *)
Definition stats_step (re : regex)
    (record : data -> section_tag -> captures -> res data)
    (st : pstate) (line : string) : res pstate :=
  let '(d, current_section) := st in
  if contains "Received Counters:" line then Ret (d, Some Rx)
  else if contains "Transmitted Counters:" line then Ret (d, Some Tx)
  else
    match re_match re line, current_section with
    | Some caps, Some sec => d' ← record d sec caps; Ret (d', current_section)
    | _, _ => Ret (d, current_section)
    end.

Definition lan_step : pstate -> string -> res pstate :=
  stats_step lan_re lan_record.

Definition wan_step : pstate -> string -> res pstate :=
  stats_step wan_re wan_record.

Definition _parse_lan_stats (output : string) : res data :=
  st ← for_each lan_step (∅, None) (split_lines output); Ret (fst st).

Definition _parse_wan_stats (output : string) : res data :=
  st ← for_each wan_step (∅, None) (split_lines output); Ret (fst st).

(** One [re.search] / [if m: data[key] = float(m.group(1))] pair of
    [_parse_laser_stats]. *)
Definition laser_field (label unit key : string) (output : string) (d : data)
  : res data :=
  match re_search (laser_re label unit) output with
  | Some (g1 :: _) => v ← py_float g1; Ret (<[key := VFloat v]> d)
  | Some [] => Raise IndexError
  | None => Ret d
  end.

Definition _parse_laser_stats (output : string) : res data :=
  d ← laser_field "Rx Optical Power" "dBm" "laser_rx_power" output ∅;
  d ← laser_field "Tx Optical Power" "dBm" "laser_tx_power" output d;
  d ← laser_field "Tx Bias Current" "mA" "laser_bias_current" output d;
  d ← laser_field "Supply voltage" "V" "laser_voltage" output d;
  d ← laser_field "SFF Temperature" "C" "laser_temperature" output d;
  Ret d.

(** ** The Session Multiplexer of [router.py] *)

(** What the device and the network do during one session, in the order
    the code asks for it.  A read that raises [TimeoutError] is a
    [wait_for] that ran out of time. *)
Record exchange : Type := Exchange {
  written : res unit;         (* process.stdin.write(...); await drain() *)
  read : res string           (* await wait_for(process.stdout.read(...)) *)
}.

Record session : Type := Session {
  connected : res unit;       (* asyncssh.connect(...) *)
  process_created : res unit; (* conn.create_process(term_type='vt100') *)
  banner : res string;        (* the first read, whose result is dropped *)
  exchange_at : nat -> exchange; (* the i-th command of the list *)
  exit_written : res unit     (* process.stdin.write("exit\n") *)
}.

(** [try: output = await wait_for(read) except asyncio.TimeoutError:]
    leaves [output] at its initial value. *)
Definition capture (initial : string) (r : res string) : res string :=
  match r with
  | Raise TimeoutError => Ret initial
  | _ => r
  end.

(** [for command in commands:], the [i]-th iteration first. *)
Fixpoint command_loop (dev : session) (i : nat) (commands : list string)
    (results : gmap string string) : res (gmap string string) :=
  match commands with
  | [] => Ret results
  | command :: rest =>
      _ ← written (exchange_at dev i);
      output ← capture "" (read (exchange_at dev i));
      command_loop dev (S i) rest (<[command := output]> results)
  end.

(** [try: write("exit\n") except: pass]. *)
Definition swallow (r : res unit) : res unit := Ret ().

(** The three handlers of the outer [try] all re-raise, so an exception
    of the body is the exception of the call. *)
Definition _execute_multiple_commands (dev : session) (commands : list string)
  : res (gmap string string) :=
  _ ← connected dev;
  _ ← process_created dev;
  _ ← capture "" (banner dev);
  results ← command_loop dev 0 commands ∅;
  _ ← swallow (exit_written dev);
  Ret results.

(** [if cmd in results: all_data.update(parse(results[cmd]))]. *)
Definition parse_into (cmd : string) (parse : string -> res data)
    (results : gmap string string) (all_data : data) : res data :=
  match results !! cmd with
  | Some text => parsed ← parse text; Ret (parsed ∪ all_data)
  | None => Ret all_data
  end.

(** [get_all_data]: the whole body sits in [try: ... except Exception],
    whose handler only logs; the function then returns [all_data] as far
    as it was filled. *)
Definition get_all_data (dev : session) : res data :=
  let all_data : data := ∅ in
  let commands := ["showlanstats"; "showwanstats"; "lasercheck"] in
  match _execute_multiple_commands dev commands with
  | Raise err => Ret all_data
  | Ret results =>
      match parse_into "showlanstats" _parse_lan_stats results all_data with
      | Raise err => Ret all_data
      | Ret all_data =>
          match parse_into "showwanstats" _parse_wan_stats results all_data with
          | Raise err => Ret all_data
          | Ret all_data =>
              match
                parse_into "lasercheck" _parse_laser_stats results all_data
              with
              | Raise err => Ret all_data
              | Ret all_data => Ret all_data
              end
          end
      end
  end.

(** [async_update_data] of [__init__.py]: the coordinator's update
    method. *)
Definition async_update_data (dev : session) : res data :=
  match get_all_data dev with
  | Ret d => Ret d
  | Raise err => Raise (UpdateFailed err)
  end.

(** ** The speed sensor of [sensor.py] *)

(** A [datetime], in microseconds. *)
Abbreviation time := Z.

(** The attributes of a [MitrastarSpeedSensor] that [native_value] reads
    and writes.  [_cached_speed] is [None] while the attribute does not
    exist ([hasattr] is false). *)
Record speed_sensor : Type := SpeedSensor {
  _source_key : string;
  _last_value : option value;
  _last_update : option time;
  _cached_speed : option Q
}.

(** [__init__]. *)
Definition new_speed_sensor (source_key : string) : speed_sensor :=
  SpeedSensor source_key None None None.

Definition num_of (v : value) : res Q :=
  match v with
  | VInt n => Ret (inject_Z n)
  | VFloat q => Ret q
  | VStr _ => Raise TypeError
  end.

(** [a - b]. *)
Definition py_sub (a b : value) : res Q :=
  x ← num_of a; y ← num_of b; Ret (x - y)%Q.

(** Rounding to the nearest integer, ties to even. *)
Definition round_half_even (q : Q) : Z :=
  let n := Qnum q in
  let d := Zpos (Qden q) in
  let fl := (n / d)%Z in
  let twice_rem := (2 * (n mod d))%Z in
  if (twice_rem <? d)%Z then fl
  else if (d <? twice_rem)%Z then (fl + 1)%Z
  else if Z.even fl then fl else (fl + 1)%Z.

(** [round(x, 2)] as a rounding of the exact rational to hundredths,
    ties to even.  Python rounds the binary64 value of [x], which at a
    tie of the exact quotient lies on one side of it ([round(1/200.0, 2)]
    is [0.01]), so the two differ at such ties. *)
Definition round2 (q : Q) : Q :=
  Qred (Qmake (round_half_even (q * 100)) 100).

(** [(a - b).total_seconds()]. *)
Definition total_seconds (micro : Z) : Q := Qmake micro 1000000.

(** The [native_value] property.  [now n] is what the [n]-th call of
    [datetime.now()] returns and [tick] counts the calls made so far;
    [depth] is the number of frames left before the interpreter raises
    [RecursionError].  The result is the returned value ([None] as
    [None]), the sensor afterwards and the clock calls made.  No value of
    the dictionary is [None], so the test [current_value is None] of the
    source is the test for a missing key.  The rate of the last branch is
    computed in exact rational arithmetic: the conversion of the counter
    difference to a float (which raises OverflowError beyond the range of
    a float) and the binary rounding of the division and of [round] are
    left out, and no general statement is made about the value of a
    rate. *)
Fixpoint native_value (depth : nat) (now : nat -> time) (tick : nat)
    (coordinator_data : data) (self : speed_sensor)
  : res (option Q) * speed_sensor * nat :=
  match depth with
  | O => (Raise RecursionError, self, tick)
  | S depth' =>
      match coordinator_data !! _source_key self with
      | None => (Ret None, self, tick)
      | Some current_value =>
          let current_time := now tick in
          let tick := S tick in
          let baseline :=
            SpeedSensor (_source_key self) (Some current_value)
              (Some current_time) (_cached_speed self) in
          match _last_value self, _last_update self with
          | Some last_value, Some last_update =>
              let time_diff := total_seconds (current_time - last_update) in
              if Qle_bool time_diff 0 then
                match _cached_speed self with
                | Some _ => native_value depth' now tick coordinator_data self
                | None => (Ret (Some 0%Q), self, tick)
                end
              else
                match py_sub current_value last_value with
                | Raise e => (Raise e, self, tick)
                | Ret value_diff =>
                    if negb (Qle_bool 0 value_diff) then
                      (Ret (Some 0%Q), baseline, tick)
                    else
                      let speed := (value_diff / time_diff)%Q in
                      let cached := round2 speed in
                      (Ret (Some cached),
                       SpeedSensor (_source_key self) (Some current_value)
                         (Some current_time) (Some cached),
                       tick)
                end
          | _, _ => (Ret (Some 0%Q), baseline, tick)
          end
      end
  end.

(** * Properties *)

(** ** Strings *)

Fixpoint all_chars (p : ascii -> bool) (s : string) : bool :=
  match s with
  | EmptyString => true
  | String c s' => p c && all_chars p s'
  end.

(** A non-empty run of characters of one class. *)
Definition run_of (p : ascii -> bool) (s : string) : Prop :=
  s <> EmptyString /\ all_chars p s = true.

(** [s] is empty or starts outside the class [p]: a greedy [p+] that
    has arrived at [s] cannot go further. *)
Definition stops (p : ascii -> bool) (s : string) : Prop :=
  match s with
  | EmptyString => True
  | String c _ => p c = false
  end.

Lemma app_cons c (s t : string) : String c s +:+ t = String c (s +:+ t).
Proof. reflexivity. Qed.

Lemma app_empty_l (s : string) : "" +:+ s = s.
Proof. reflexivity. Qed.

Lemma app_empty_r (s : string) : s +:+ "" = s.
Proof. induction s as [|c s IH]; [reflexivity|]. by rewrite app_cons, IH. Qed.

Lemma sapp_assoc (s t u : string) : (s +:+ t) +:+ u = s +:+ (t +:+ u).
Proof.
  induction s as [|c s IH]; [reflexivity|]. by rewrite !app_cons, IH.
Qed.

Lemma length_app (s t : string) :
  String.length (s +:+ t) = (String.length s + String.length t)%nat.
Proof.
  induction s as [|c s IH]; [reflexivity|]. rewrite app_cons. simpl. lia.
Qed.

Lemma all_chars_app p (s t : string) :
  all_chars p (s +:+ t) = all_chars p s && all_chars p t.
Proof.
  induction s as [|c s IH]; [reflexivity|].
  rewrite app_cons. simpl. rewrite IH. by rewrite andb_assoc.
Qed.

Lemma all_chars_impl (p q : ascii -> bool) s :
  (forall c, p c = true -> q c = true) ->
  all_chars p s = true -> all_chars q s = true.
Proof.
  intros Hpq. induction s as [|c s IH]; [done|]. simpl.
  intros [Hc Hs]%andb_true_iff. rewrite (Hpq _ Hc). simpl. auto.
Qed.

Lemma take_app (a s : string) : take (String.length a) (a +:+ s) = a.
Proof.
  induction a as [|c a IH]; [by destruct s|].
  rewrite app_cons. simpl. by rewrite IH.
Qed.

Lemma consumed_app (a s : string) : consumed (a +:+ s) s = a.
Proof.
  unfold consumed. rewrite length_app.
  replace (String.length a + String.length s - String.length s)%nat
    with (String.length a) by lia.
  apply take_app.
Qed.




(** A run of one class stops a greedy repetition of a disjoint class. *)
Lemma run_of_stops (p q : ascii -> bool) (a s : string) :
  (forall c, q c = true -> p c = false) ->
  run_of q a -> stops p (a +:+ s).
Proof.
  intros Hd [Hne Ha]. destruct a as [|c a]; [done|].
  rewrite app_cons. simpl in *. apply Hd.
  by apply andb_true_iff in Ha as [-> _].
Qed.

(** ** The matcher *)

Section MatcherFacts.

Context {R : Type}.

(** Completeness of the greedy repetition on a maximal run. *)
Lemma plus_run_greedy p (a s : string) (k : string -> option R) x :
  run_of p a -> stops p s -> k s = Some x ->
  plus_run p (a +:+ s) k = Some x.
Proof.
  intros [Hne Ha] Hs Hk. induction a as [|c a IH]; [done|].
  rewrite app_cons. simpl in *. apply andb_true_iff in Ha as [-> Ha].
  destruct a as [|c' a].
  - rewrite app_empty_l.
    assert (plus_run p s k = None) as ->; [|done].
    destruct s as [|c' s]; [done|]. simpl in *. by rewrite Hs.
  - by rewrite IH.
Qed.

(** Soundness of the repetition: whatever it returns, the
    continuation returned after a non-empty run of the class. *)
Lemma plus_run_sound p (s : string) (k : string -> option R) x :
  plus_run p s k = Some x ->
  exists a s', s = a +:+ s' /\ run_of p a /\ k s' = Some x.
Proof.
  induction s as [|c s IH]; [done|]. simpl.
  destruct (p c) eqn:Hc; [|done].
  destruct (plus_run p s k) as [y|] eqn:Hrun.
  - intros [= ->]. destruct (IH eq_refl) as (a & s' & -> & [Hne Ha] & Hk).
    exists (String c a), s'. repeat split; [done| |done].
    simpl. by rewrite Hc, Ha.
  - simpl. intros Hk. exists (String c ""), s. repeat split; [done| |done].
    simpl. by rewrite Hc.
Qed.

End MatcherFacts.

(** What a pattern denotes: from position [s] with groups [caps] it can
    arrive at position [s'] with groups [caps']. *)
Fixpoint sem (r : regex) (s : string) (caps : captures)
    (s' : string) (caps' : captures) : Prop :=
  match r with
  | Eps => s' = s /\ caps' = caps
  | Chr p => exists c, s = String c s' /\ p c = true /\ caps' = caps
  | Plus p => exists a, s = a +:+ s' /\ run_of p a /\ caps' = caps
  | Seq r1 r2 =>
      exists s1 caps1, sem r1 s caps s1 caps1 /\ sem r2 s1 caps1 s' caps'
  | Alt r1 r2 => sem r1 s caps s' caps' \/ sem r2 s caps s' caps'
  | Group r1 =>
      exists caps1, sem r1 s caps s' caps1 /\
                    caps' = (caps1 ++ [consumed s s'])%list
  end.

(** The matcher only ever succeeds along a path the pattern denotes. *)
Lemma run_sound {R} (r : regex) :
  forall (s : string) (caps : captures) (k : string -> captures -> option R) x,
    run r s caps k = Some x ->
    exists s' caps', sem r s caps s' caps' /\ k s' caps' = Some x.
Proof.
  induction r as [|p|p|r1 IH1 r2 IH2|r1 IH1 r2 IH2|r IH];
    intros s caps k x; simpl.
  - intros Hk. by exists s, caps.
  - destruct s as [|c s]; [done|]. destruct (p c) eqn:Hc; [|done].
    intros Hk. exists s, caps. split; [|done]. by exists c.
  - intros (a & s' & -> & Ha & Hk)%plus_run_sound.
    exists s', caps. split; [|done]. by exists a.
  - intros (s1 & caps1 & H1 & (s2 & caps2 & H2 & Hk)%IH2)%IH1.
    exists s2, caps2. split; [|done]. by exists s1, caps1.
  - destruct (run r1 s caps k) as [y|] eqn:Hr1.
    + intros [= ->]. apply IH1 in Hr1 as (s' & caps' & H1 & Hk).
      exists s', caps'. by split; [left|].
    + simpl. intros (s' & caps' & H2 & Hk)%IH2.
      exists s', caps'. by split; [right|].
  - intros (s' & caps1 & H1 & Hk)%IH.
    exists s', (caps1 ++ [consumed s s'])%list. split; [|done].
    by exists caps1.
Qed.

Lemma re_match_sound r s caps :
  re_match r s = Some caps -> exists s', sem r s [] s' caps.
Proof.
  unfold re_match. intros (s' & caps' & Hsem & [= ->])%run_sound.
  by exists s'.
Qed.

(** A pattern consumes a prefix of the text. *)
Lemma sem_prefix r :
  forall s caps s' caps',
    sem r s caps s' caps' -> exists a, s = a +:+ s'.
Proof.
  induction r as [|p|p|r1 IH1 r2 IH2|r1 IH1 r2 IH2|r IH];
    intros s caps s' caps'; simpl.
  - intros [-> _]. by exists "".
  - intros (c & -> & _). by exists (String c "").
  - intros (a & -> & _). by exists a.
  - intros (s1 & caps1 & (a & ->)%IH1 & (b & ->)%IH2).
    exists (a +:+ b). by rewrite sapp_assoc.
  - intros [H|H]; eauto.
  - intros (caps1 & H & _). eauto.
Qed.

(** ** The character classes *)

Ltac by_cases_on_char c :=
  destruct c as [[] [] [] [] [] [] [] []]; vm_compute; congruence.

Lemma digit_not_space c : Cls.digit c = true -> Cls.space c = false.
Proof. by_cases_on_char c. Qed.

Lemma space_not_digit c : Cls.space c = true -> Cls.digit c = false.
Proof. by_cases_on_char c. Qed.

Lemma word_not_space c : Cls.word c = true -> Cls.space c = false.
Proof. by_cases_on_char c. Qed.

Lemma space_not_word c : Cls.space c = true -> Cls.word c = false.
Proof. by_cases_on_char c. Qed.

Lemma space_not_nonspace c : Cls.space c = true -> Cls.nonspace c = false.
Proof. unfold Cls.nonspace. by intros ->. Qed.

Lemma nonspace_not_space c : Cls.nonspace c = true -> Cls.space c = false.
Proof. unfold Cls.nonspace. by destruct (Cls.space c). Qed.

Lemma digit_nonspace c : Cls.digit c = true -> Cls.nonspace c = true.
Proof. unfold Cls.nonspace. by intros ->%digit_not_space. Qed.

Lemma word_nonspace c : Cls.word c = true -> Cls.nonspace c = true.
Proof. unfold Cls.nonspace. by intros ->%word_not_space. Qed.

(** ** The numeric columns of a row *)

(** A column: the blanks before it and its digits. *)
Abbreviation column := (string * string)%type.

Definition column_ok (f : column) : Prop :=
  run_of Cls.space f.1 /\ run_of Cls.digit f.2.

(** The text of a sequence of columns, followed by [rest]. *)
Definition columns (fields : list column) (rest : string) : string :=
  foldr (fun f acc => f.1 +:+ f.2 +:+ acc) rest fields.

(** [n] times [\s+(\d+)]. *)
Fixpoint int_cols (n : nat) : regex :=
  match n with
  | O => Eps
  | S n' => Seq ws (Seq int_group (int_cols n'))
  end.

Lemma columns_stops_digit fields rest :
  Forall column_ok fields -> stops Cls.digit rest ->
  stops Cls.digit (columns fields rest).
Proof.
  intros Hok Hrest. destruct Hok as [|f fs [Hw _] _]; [done|].
  simpl. eapply run_of_stops; [apply space_not_digit|done].
Qed.

Lemma int_cols_complete {R} (fields : list column) :
  forall rest caps (k : string -> captures -> option R) x,
    Forall column_ok fields -> stops Cls.digit rest ->
    k rest (caps ++ fields.*2)%list = Some x ->
    run (int_cols (length fields)) (columns fields rest) caps k = Some x.
Proof.
  induction fields as [|[w d] fs IH]; intros rest caps k x Hok Hrest Hk.
  - simpl in *. by rewrite app_nil_r in Hk.
  - apply Forall_cons in Hok as [[Hw Hd] Hok]. simpl in *.
    apply plus_run_greedy; [done| |].
    { eapply run_of_stops; [apply digit_not_space|done]. }
    apply plus_run_greedy; [done| |].
    { by apply columns_stops_digit. }
    rewrite consumed_app. apply IH; [done..|].
    by rewrite <-app_assoc.
Qed.

Lemma int_cols_sound (n : nat) :
  forall s caps s' caps',
    sem (int_cols n) s caps s' caps' ->
    exists fields : list column,
      length fields = n /\ Forall column_ok fields /\
      s = columns fields s' /\ caps' = (caps ++ fields.*2)%list.
Proof.
  induction n as [|n IH]; intros s caps s' caps'; simpl.
  - intros [-> ->]. exists []. by rewrite app_nil_r.
  - intros (s1 & caps1 & (w & -> & Hw & ->) &
            s2 & caps2 & (caps3 & (d & -> & Hd & ->) & ->) & Hrest).
    rewrite consumed_app in Hrest.
    apply IH in Hrest as (fs & <- & Hok & -> & ->).
    exists ((w, d) :: fs). repeat split; [by constructor|].
    simpl. by rewrite <-app_assoc.
Qed.

(** ** Literals and the status token *)

Lemma lit_complete {R} (t : string) :
  forall s caps (k : string -> captures -> option R),
    run (lit t) (t +:+ s) caps k = k s caps.
Proof.
  induction t as [|c t IH]; intros s caps k; [done|].
  rewrite app_cons. simpl. unfold Cls.just. by rewrite Ascii.eqb_refl.
Qed.

Lemma lit_sem (t : string) :
  forall s caps s' caps',
    sem (lit t) s caps s' caps' -> s = t +:+ s' /\ caps' = caps.
Proof.
  induction t as [|c t IH]; intros s caps s' caps'; simpl.
  - by intros [-> ->].
  - intros (s1 & caps1 & (c' & -> & Hc & ->) & [-> ->]%IH).
    apply Ascii.eqb_eq in Hc as ->. by rewrite app_cons.
Qed.

(** The three status tokens of a LAN row. *)
Definition statuses : list string := ["Up"; "Disabled"; "Down"].

(** [(Up|Disabled|Down)]. *)
Definition status_re : regex :=
  Group (Alt (lit "Up") (Alt (lit "Disabled") (lit "Down"))).

Lemma status_complete {R} status s caps
    (k : string -> captures -> option R) x :
  status ∈ statuses ->
  k s (caps ++ [status])%list = Some x ->
  run status_re (status +:+ s) caps k = Some x.
Proof.
  unfold statuses. rewrite !elem_of_cons, elem_of_nil.
  intros [->|[->|[->|[]]]] Hk; unfold status_re;
    cbn [run]; rewrite ?lit_complete, ?consumed_app, ?Hk; done.
Qed.

Lemma status_sem s caps s' caps' :
  sem status_re s caps s' caps' ->
  exists status, status ∈ statuses /\ s = status +:+ s' /\
                 caps' = (caps ++ [status])%list.
Proof.
  unfold status_re, statuses. cbn [sem].
  intros (caps1 & [H|[H|H]] & ->); apply lit_sem in H as [-> ->];
    rewrite consumed_app; eexists; (split; [|done]); set_solver.
Qed.

Lemma status_run_of_nonspace status :
  status ∈ statuses -> run_of Cls.nonspace status.
Proof.
  unfold statuses. rewrite !elem_of_cons, elem_of_nil.
  by intros [->|[->|[->|[]]]].
Qed.

(** ** Rows *)

(** The text of a LAN row: blanks, interface, blanks, status, the
    numeric columns, and whatever follows them. *)
Definition lan_row (w0 name w1 status : string) (fields : list column)
    (rest : string) : string :=
  w0 +:+ name +:+ w1 +:+ status +:+ columns fields rest.

(** The text of a WAN row: blanks, interface token, the numeric columns
    (the VLAN id first), and whatever follows them. *)
Definition wan_row (w0 name : string) (fields : list column) (rest : string)
  : string :=
  w0 +:+ name +:+ columns fields rest.

Lemma lan_re_unfold :
  lan_re =
  Seq ws (Seq (Group (Plus Cls.word)) (Seq ws (Seq status_re (int_cols 8)))).
Proof. reflexivity. Qed.

Lemma wan_re_unfold :
  wan_re = Seq ws (Seq (Group (Plus Cls.nonspace)) (int_cols 9)).
Proof. reflexivity. Qed.

Lemma lan_match_complete w0 name w1 status fields rest :
  run_of Cls.space w0 -> run_of Cls.word name -> run_of Cls.space w1 ->
  status ∈ statuses -> length fields = 8%nat -> Forall column_ok fields ->
  stops Cls.digit rest ->
  re_match lan_re (lan_row w0 name w1 status fields rest)
  = Some (name :: status :: fields.*2).
Proof.
  intros Hw0 Hname Hw1 Hst Hlen Hok Hrest.
  unfold re_match, lan_row. rewrite lan_re_unfold. cbn [run ws].
  apply plus_run_greedy; [done| |].
  { eapply run_of_stops; [apply word_not_space|done]. }
  apply plus_run_greedy; [done| |].
  { eapply run_of_stops; [apply space_not_word|done]. }
  rewrite consumed_app.
  apply plus_run_greedy; [done| |].
  { eapply run_of_stops;
      [apply nonspace_not_space|by apply status_run_of_nonspace]. }
  apply status_complete; [done|].
  rewrite <-Hlen. by apply int_cols_complete.
Qed.

Lemma lan_match_sound line caps :
  re_match lan_re line = Some caps ->
  exists w0 name w1 status fields rest,
    line = lan_row w0 name w1 status fields rest /\
    run_of Cls.space w0 /\ run_of Cls.word name /\ run_of Cls.space w1 /\
    status ∈ statuses /\ length fields = 8%nat /\ Forall column_ok fields /\
    caps = name :: status :: fields.*2.
Proof.
  intros [rest Hsem]%re_match_sound. rewrite lan_re_unfold in Hsem.
  cbn [sem ws] in Hsem.
  destruct Hsem as (s1 & c1 & (w0 & -> & Hw0 & ->) &
                    s2 & c2 & (c2' & (name & -> & Hname & ->) & ->) &
                    s3 & c3 & (w1 & -> & Hw1 & ->) &
                    s4 & c4 & Hst & Hcols).
  rewrite consumed_app in Hst.
  apply status_sem in Hst as (status & Hst & -> & ->).
  apply int_cols_sound in Hcols as (fields & Hlen & Hok & -> & ->).
  by exists w0, name, w1, status, fields, rest.
Qed.

Lemma wan_match_complete w0 name fields rest :
  run_of Cls.space w0 -> run_of Cls.nonspace name ->
  length fields = 9%nat -> Forall column_ok fields ->
  stops Cls.digit rest ->
  re_match wan_re (wan_row w0 name fields rest) = Some (name :: fields.*2).
Proof.
  intros Hw0 Hname Hlen Hok Hrest.
  unfold re_match, wan_row. rewrite wan_re_unfold. cbn [run ws].
  apply plus_run_greedy; [done| |].
  { eapply run_of_stops; [apply nonspace_not_space|done]. }
  apply plus_run_greedy; [done| |].
  { destruct Hok as [|f fs [Hw _] _]; [done|]. simpl.
    eapply run_of_stops; [apply space_not_nonspace|done]. }
  rewrite consumed_app, <-Hlen. by apply int_cols_complete.
Qed.

Lemma wan_match_sound line caps :
  re_match wan_re line = Some caps ->
  exists w0 name fields rest,
    line = wan_row w0 name fields rest /\
    run_of Cls.space w0 /\ run_of Cls.nonspace name /\
    length fields = 9%nat /\ Forall column_ok fields /\
    caps = name :: fields.*2.
Proof.
  intros [rest Hsem]%re_match_sound. rewrite wan_re_unfold in Hsem.
  cbn [sem ws] in Hsem.
  destruct Hsem as (s1 & c1 & (w0 & -> & Hw0 & ->) &
                    s2 & c2 & (c2' & (name & -> & Hname & ->) & ->) & Hcols).
  rewrite consumed_app in Hcols.
  apply int_cols_sound in Hcols as (fields & Hlen & Hok & -> & ->).
  by exists w0, name, fields, rest.
Qed.

(** ** Integers *)

(** The number a run of digits denotes. *)
Definition int_of (s : string) : Z := default 0%Z (digits_val 0 s).

Lemma digits_val_total s :
  all_chars Cls.digit s = true ->
  forall acc, exists n, digits_val acc s = Some n.
Proof.
  induction s as [|c s IH]; simpl; [by eauto|].
  intros [-> Hs]%andb_true_iff acc. by apply IH.
Qed.

(** [int] on a run of digits: its number, unless the run is too long. *)
Lemma py_int_run s :
  run_of Cls.digit s ->
  py_int s
  = if (int_max_str_digits <? String.length s)%nat then Raise ValueError
    else Ret (int_of s).
Proof.
  intros [Hne Hs]. destruct (digits_val_total s Hs 0%Z) as [n Hn].
  unfold py_int, int_of. rewrite Hn. by destruct s.
Qed.

(** The digits of a column are few enough for [int]. *)
Definition counter_fits (f : column) : Prop :=
  (String.length f.2 <= int_max_str_digits)%nat.

Definition counter_fits_b (f : column) : bool :=
  negb (int_max_str_digits <? String.length f.2)%nat.

Lemma counter_fits_spec f : counter_fits_b f = true <-> counter_fits f.
Proof.
  unfold counter_fits_b, counter_fits.
  destruct (Nat.ltb_spec int_max_str_digits (String.length f.2)); simpl;
    split; (done || lia).
Qed.

Lemma all_counters_fit (fields : list column) :
  forallb counter_fits_b fields = true <-> Forall counter_fits fields.
Proof.
  rewrite forallb_forall, Forall_forall. split.
  - intros H f Hf. by apply counter_fits_spec, H, list_elem_of_In.
  - intros H f Hf. by apply counter_fits_spec, H, list_elem_of_In.
Qed.

(** ** Keys and groups *)

(** The names of the eight counters, in column order. *)
Definition numeric_fields : list string :=
  [ "total_bytes"; "total_packets"; "errors"; "drops"; "multicast_bytes";
    "multicast_packets"; "unicast_packets"; "broadcast_packets" ].

(** The key scheme [{namespace}_{interface}_{section}_{field}]. *)
Definition metric_key (namespace interface : string) (sec : section_tag)
    (field : string) : string :=
  namespace +:+ "_" +:+ interface +:+ "_" +:+ section_name sec
  +:+ "_" +:+ field.

(** The entries of one row: its leading field ([status] or [vlan_id],
    a string) and its eight counters. *)
Definition group (namespace interface : string) (sec : section_tag)
    (lead : string * string) (ds : list string) : list (string * value) :=
  (metric_key namespace interface sec lead.1, VStr lead.2)
  :: zip_with (fun field d =>
                 (metric_key namespace interface sec field, VInt (int_of d)))
       numeric_fields ds.

(** The keys the code builds are the keys of the scheme. *)
Lemma code_key (ns interface : string) (sec : section_tag) (field : string) :
  (ns +:+ "_" +:+ interface +:+ "_" +:+ section_name sec)
    +:+ String "_" field
  = metric_key ns interface sec field.
Proof.
  change (String "_" field) with ("_" +:+ field).
  unfold metric_key. by rewrite !sapp_assoc.
Qed.

Lemma app_ne (p s t : string) : s <> t -> p +:+ s <> p +:+ t.
Proof. intros Hne Heq. by apply (inj (String.app p)) in Heq. Qed.

Lemma metric_key_ne ns interface sec (f1 f2 : string) :
  f1 <> f2 -> metric_key ns interface sec f1 <> metric_key ns interface sec f2.
Proof. intros Hne. unfold metric_key. by do 6 apply app_ne. Qed.

Ltac key_ne :=
  first [ apply metric_key_ne; first [ discriminate | congruence ]
        | congruence ].

Ltac look :=
  repeat first
    [ rewrite lookup_insert_eq
    | rewrite lookup_insert_ne by key_ne ].

(** Split the goal on whether [k] is one of the keys being written. *)
Ltac split_on_keys k :=
  repeat match goal with
    | |- context [ <[ ?key := _ ]> _ !! k ] =>
        destruct (decide (key = k)) as [<-|?];
        [ first [ congruence | look; reflexivity ]
        | rewrite !(lookup_insert_ne _ key k) by done ]
    end.

(** What the eight assignments and the leading one leave in the
    dictionary: the group of the row, over what was there. *)
Lemma store_group (ns interface : string) (sec : section_tag)
    (lead : string * string) (d : data) (d1 d2 d3 d4 d5 d6 d7 d8 : string) :
  lead.1 ∉ numeric_fields ->
  store_counters (ns +:+ "_" +:+ interface +:+ "_" +:+ section_name sec)
    (Counters (int_of d1) (int_of d2) (int_of d3) (int_of d4) (int_of d5)
       (int_of d6) (int_of d7) (int_of d8))
    (<[(ns +:+ "_" +:+ interface +:+ "_" +:+ section_name sec)
       +:+ String "_" lead.1 := VStr lead.2]> d)
  = list_to_map
      (group ns interface sec lead [d1; d2; d3; d4; d5; d6; d7; d8]) ∪ d.
Proof.
  intros Hlead. unfold store_counters, group, numeric_fields.
  rewrite !code_key.
  cbn [zip_with list_to_map foldr fst snd total_bytes total_pkts errors drops
         mcast_bytes mcast_pkts ucast_pkts bcast_pkts].
  rewrite <-!insert_union_l, (left_id_L ∅ (∪)).
  assert (Forall (fun f => lead.1 <> f /\ f <> lead.1) numeric_fields) as Hne.
  { apply Forall_forall. intros f Hf. split; intros Heq; apply Hlead;
      apply list_elem_of_In; congruence. }
  unfold numeric_fields in Hne. repeat apply Forall_cons in Hne as [[??] Hne].
  apply map_eq. intros k. split_on_keys k. reflexivity.
Qed.

Lemma status_not_numeric : "status" ∉ numeric_fields.
Proof.
  intros H. repeat (apply elem_of_cons in H as [H|H]; [discriminate|]).
  by apply elem_of_nil in H.
Qed.

Lemma vlan_id_not_numeric : "vlan_id" ∉ numeric_fields.
Proof.
  intros H. repeat (apply elem_of_cons in H as [H|H]; [discriminate|]).
  by apply elem_of_nil in H.
Qed.

Ltac eight_columns fields Hlen Hok :=
  do 8 (destruct fields as [|[? ?] fields]; [done|]);
  destruct fields; [clear Hlen|done];
  repeat apply Forall_cons in Hok as [[_ ?] Hok]; clear Hok.

Ltac split_on_lengths :=
  repeat match goal with
    | |- context [ (int_max_str_digits <? String.length ?x)%nat ] =>
        destruct (int_max_str_digits <? String.length x)%nat;
        cbn [mbind res_bind negb andb forallb]; [reflexivity|]
    end.

(** What a matched LAN row does: it stores its group, unless one of its
    counters is too long for [int]. *)
Lemma lan_record_fields d sec name status (fields : list column) :
  length fields = 8%nat -> Forall column_ok fields ->
  lan_record d sec (name :: status :: fields.*2)
  = if forallb counter_fits_b fields
    then Ret (list_to_map
                (group "lan" name sec ("status", status) fields.*2) ∪ d)
    else Raise ValueError.
Proof.
  intros Hlen Hok. eight_columns fields Hlen Hok.
  cbn [fmap list_fmap snd]. unfold lan_record, read_counters.
  rewrite !py_int_run by done.
  unfold counter_fits_b. cbn [forallb snd]. split_on_lengths.
  f_equal. apply (store_group "lan" name sec ("status", status)).
  apply status_not_numeric.
Qed.

Lemma wan_record_fields d sec name w vlan_id (fields : list column) :
  length fields = 8%nat -> Forall column_ok fields ->
  wan_record d sec (name :: ((w, vlan_id) :: fields).*2)
  = if forallb counter_fits_b fields
    then Ret (list_to_map
                (group "wan" name sec ("vlan_id", vlan_id) fields.*2) ∪ d)
    else Raise ValueError.
Proof.
  intros Hlen Hok. eight_columns fields Hlen Hok.
  cbn [fmap list_fmap snd]. unfold wan_record, read_counters.
  rewrite !py_int_run by done.
  unfold counter_fits_b. cbn [forallb snd]. split_on_lengths.
  f_equal. apply (store_group "wan" name sec ("vlan_id", vlan_id)).
  apply vlan_id_not_numeric.
Qed.

Lemma lan_record_row d sec name status (fields : list column) :
  length fields = 8%nat -> Forall column_ok fields ->
  Forall counter_fits fields ->
  lan_record d sec (name :: status :: fields.*2)
  = Ret (list_to_map (group "lan" name sec ("status", status) fields.*2) ∪ d).
Proof.
  intros Hlen Hok Hfit%all_counters_fit.
  by rewrite lan_record_fields, Hfit.
Qed.

Lemma wan_record_row d sec name w vlan_id (fields : list column) :
  length fields = 8%nat -> Forall column_ok fields ->
  Forall counter_fits fields ->
  wan_record d sec (name :: ((w, vlan_id) :: fields).*2)
  = Ret (list_to_map (group "wan" name sec ("vlan_id", vlan_id) fields.*2) ∪ d).
Proof.
  intros Hlen Hok Hfit%all_counters_fit.
  by rewrite wan_record_fields, Hfit.
Qed.


(** Every field of a group is in the dictionary once the group is
    written, and no other key is touched. *)
Lemma group_present ns interface sec lead (ds : list string) (d : data) f :
  length ds = 8%nat -> f ∈ lead.1 :: numeric_fields ->
  is_Some ((list_to_map (group ns interface sec lead ds) ∪ d)
             !! metric_key ns interface sec f).
Proof.
  intros Hlen Hf.
  do 8 (destruct ds as [|? ds]; [done|]). destruct ds; [|done].
  unfold group, numeric_fields in *.
  cbn [zip_with list_to_map foldr fst snd].
  rewrite <-!insert_union_l, (left_id_L ∅ (∪)).
  repeat (apply elem_of_cons in Hf as [->|Hf];
          [rewrite lookup_insert_eq; by eexists
          |rewrite lookup_insert; case_decide; [by eexists|]]).
  by apply elem_of_nil in Hf.
Qed.

Lemma group_frame ns interface sec lead (ds : list string) (d : data) k :
  (forall f, f ∈ lead.1 :: numeric_fields ->
             k <> metric_key ns interface sec f) ->
  (list_to_map (group ns interface sec lead ds) ∪ d) !! k = d !! k.
Proof.
  intros Hk. rewrite lookup_union_r; [done|].
  apply not_elem_of_list_to_map_1. unfold group.
  rewrite fmap_cons, elem_of_cons. intros [->|Hin].
  - eapply Hk; [|done]. by left.
  - apply list_elem_of_fmap in Hin as ([k' v] & -> & Hin).
    apply elem_of_lookup_zip_with in Hin as (i & f & x & [= -> ->] & Hf & _).
    eapply Hk; [|done]. right. by eapply list_elem_of_lookup_2.
Qed.

(** ** Section headers *)

Lemma prefix_all_chars p (needle hay : string) :
  String.prefix needle hay = true ->
  all_chars p hay = true -> all_chars p needle = true.
Proof.
  revert hay. induction needle as [|c n IH]; intros [|c' h]; simpl; try done.
  destruct (ascii_dec c c') as [->|]; [|done].
  intros Hpre [-> Hh]%andb_true_iff. simpl. eauto.
Qed.

(** A text that contains [needle] contains each of its characters. *)
Lemma contains_all_chars p (needle hay : string) :
  contains needle hay = true ->
  all_chars p hay = true -> all_chars p needle = true.
Proof.
  induction hay as [|c h IH].
  - cbn [contains]. destruct (String.prefix needle "") eqn:Hpre; [|done].
    intros _ Hh. by eapply prefix_all_chars.
  - cbn [contains]. destruct (String.prefix needle (String c h)) eqn:Hpre.
    + intros _ Hh. by eapply prefix_all_chars.
    + simpl. intros Hc [_ Hh]%andb_true_iff. auto.
Qed.

(** Blank, alphanumeric or underscore: what a LAN row is made of. *)
Definition plain (c : ascii) : bool := Cls.space c || Cls.word c.

Lemma space_plain c : Cls.space c = true -> plain c = true.
Proof. unfold plain. by intros ->. Qed.

Lemma word_plain c : Cls.word c = true -> plain c = true.
Proof. unfold plain. intros ->. by rewrite orb_true_r. Qed.

Lemma digit_plain c : Cls.digit c = true -> plain c = true.
Proof. by_cases_on_char c. Qed.

Lemma columns_all_chars p (fields : list column) rest :
  (forall c, Cls.space c = true -> p c = true) ->
  (forall c, Cls.digit c = true -> p c = true) ->
  Forall column_ok fields -> all_chars p rest = true ->
  all_chars p (columns fields rest) = true.
Proof.
  intros Hs Hd Hok Hrest.
  induction Hok as [|[w d] fs [[_ Hw] [_ Hdg]] _ IH]; [done|].
  simpl in *. rewrite !all_chars_app, IH.
  by rewrite (all_chars_impl _ _ _ Hs Hw), (all_chars_impl _ _ _ Hd Hdg).
Qed.

Lemma status_plain status :
  status ∈ statuses -> all_chars plain status = true.
Proof.
  unfold statuses. rewrite !elem_of_cons, elem_of_nil.
  by intros [->|[->|[->|[]]]].
Qed.

(** A LAN row followed by blanks only is plain, so it carries no
    section header: both headers have a colon. *)
Lemma lan_row_plain w0 name w1 status fields trailing :
  all_chars Cls.space w0 = true -> all_chars Cls.word name = true ->
  all_chars Cls.space w1 = true -> status ∈ statuses ->
  Forall column_ok fields -> all_chars Cls.space trailing = true ->
  all_chars plain (lan_row w0 name w1 status fields trailing) = true.
Proof.
  intros Hw0 Hname Hw1 Hst Hok Htr. unfold lan_row.
  rewrite !all_chars_app.
  rewrite (all_chars_impl _ _ _ space_plain Hw0).
  rewrite (all_chars_impl _ _ _ word_plain Hname).
  rewrite (all_chars_impl _ _ _ space_plain Hw1).
  rewrite (status_plain _ Hst). simpl.
  apply columns_all_chars;
    eauto using space_plain, digit_plain, all_chars_impl.
Qed.

Lemma plain_not_header (line : string) :
  all_chars plain line = true ->
  contains "Received Counters:" line = false /\
  contains "Transmitted Counters:" line = false.
Proof.
  intros Hline. split.
  - destruct (contains "Received Counters:" line) eqn:Hc; [|done].
    by apply (contains_all_chars plain) in Hc.
  - destruct (contains "Transmitted Counters:" line) eqn:Hc; [|done].
    by apply (contains_all_chars plain) in Hc.
Qed.

(** ** One line of a report *)

Lemma stats_step_header_rx re record (st : pstate) line :
  contains "Received Counters:" line = true ->
  stats_step re record st line = Ret (st.1, Some Rx).
Proof. destruct st. unfold stats_step. by intros ->. Qed.

Lemma stats_step_row re record d sec line caps :
  contains "Received Counters:" line = false ->
  contains "Transmitted Counters:" line = false ->
  re_match re line = Some caps ->
  stats_step re record (d, Some sec) line
  = (d' ← record d sec caps; Ret (d', Some sec)).
Proof. unfold stats_step. by intros -> -> ->. Qed.

Lemma stats_step_no_match re record (st : pstate) line :
  re_match re line = None ->
  exists cur, stats_step re record st line = Ret (st.1, cur).
Proof.
  destruct st as [d cur]. unfold stats_step. intros ->.
  repeat case_match; by eexists.
Qed.

Lemma stats_step_outside re record d line :
  exists cur, stats_step re record (d, None) line = Ret (d, cur).
Proof. unfold stats_step. repeat case_match; by eexists. Qed.

(** A line that carries neither header. *)
Definition header_free (line : string) : Prop :=
  contains "Received Counters:" line = false /\
  contains "Transmitted Counters:" line = false.

(** A line that makes [sec] the current section: the test for
    "Received Counters:" comes first. *)
Definition header_for (sec : section_tag) (line : string) : Prop :=
  match sec with
  | Rx => contains "Received Counters:" line = true
  | Tx => contains "Received Counters:" line = false /\
          contains "Transmitted Counters:" line = true
  end.

Lemma stats_step_header re record (st : pstate) sec line :
  header_for sec line ->
  stats_step re record st line = Ret (st.1, Some sec).
Proof.
  destruct st. unfold stats_step.
  destruct sec; [by intros ->|by intros [-> ->]].
Qed.

Lemma for_each_outside re record (d : data) (lines : list string) :
  Forall (fun line => contains "Received Counters:" line = false /\
                      contains "Transmitted Counters:" line = false) lines ->
  for_each (stats_step re record) (d, None) lines = Ret (d, None).
Proof.
  induction 1 as [|line lines [Hrx Htx] _ IH]; [done|].
  cbn [for_each].
  assert (stats_step re record (d, None) line = Ret (d, None)) as ->; [|done].
  unfold stats_step. rewrite Hrx, Htx. by destruct (re_match re line).
Qed.

Lemma for_each_app {S A} (body : S -> A -> res S) (xs ys : list A) :
  forall st,
    for_each body st (xs ++ ys)%list
    = (st' ← for_each body st xs; for_each body st' ys).
Proof.
  induction xs as [|x xs IH]; intros st; [done|]. cbn [for_each app].
  destruct (body st x) as [st'|e]; [|done]. cbn [mbind res_bind]. apply IH.
Qed.

(** A report whose lines are: lines without a header, a header, a row. *)
Lemma report_tail re record (before : list string) header sec row
    (g : data) :
  Forall header_free before -> header_for sec header ->
  stats_step re record (∅, Some sec) row = Ret (g, Some sec) ->
  for_each (stats_step re record) (∅, None) ((before ++ [header; row])%list)
  = Ret (g, Some sec).
Proof.
  intros Hbefore Hheader Hrow.
  rewrite for_each_app, for_each_outside by done.
  cbn [mbind res_bind for_each].
  rewrite (stats_step_header _ _ _ sec) by done.
  cbn [mbind res_bind fst]. by rewrite Hrow.
Qed.

Lemma blank_stops_digit (s : string) :
  all_chars Cls.space s = true -> stops Cls.digit s.
Proof.
  destruct s as [|c s]; [done|]. simpl.
  intros [Hc _]%andb_true_iff. by apply space_not_digit.
Qed.

(** ** The LAN extractor on well-formed rows *)

Lemma lan_step_row (d : data) sec w0 name w1 status (fields : list column)
    trailing :
  run_of Cls.space w0 -> run_of Cls.word name -> run_of Cls.space w1 ->
  status ∈ statuses ->
  length fields = 8%nat -> Forall column_ok fields ->
  Forall counter_fits fields ->
  all_chars Cls.space trailing = true ->
  lan_step (d, Some sec) (lan_row w0 name w1 status fields trailing)
  = Ret (list_to_map (group "lan" name sec ("status", status) fields.*2) ∪ d,
         Some sec).
Proof.
  intros Hw0 Hname Hw1 Hst Hlen Hok Hfit Htr.
  destruct (plain_not_header (lan_row w0 name w1 status fields trailing))
    as [Hrx Htx].
  { apply lan_row_plain; [apply Hw0|apply Hname|apply Hw1|done..]. }
  unfold lan_step.
  rewrite (stats_step_row _ _ _ _ _ (name :: status :: fields.*2) Hrx Htx).
  - by rewrite lan_record_row.
  - apply lan_match_complete; auto using blank_stops_digit.
Qed.


Lemma parse_lan_report (output : string) (before : list string) header sec
    w0 name w1 status (fields : list column) trailing :
  split_lines output
  = (before ++ [header; lan_row w0 name w1 status fields trailing])%list ->
  Forall header_free before -> header_for sec header ->
  run_of Cls.space w0 -> run_of Cls.word name -> run_of Cls.space w1 ->
  status ∈ statuses ->
  length fields = 8%nat -> Forall column_ok fields ->
  Forall counter_fits fields ->
  all_chars Cls.space trailing = true ->
  _parse_lan_stats output
  = Ret (list_to_map (group "lan" name sec ("status", status) fields.*2)).
Proof.
  intros Hlines Hbefore Hheader Hw0 Hname Hw1 Hst Hlen Hok Hfit Htr.
  unfold _parse_lan_stats, lan_step. rewrite Hlines.
  rewrite (report_tail _ _ _ _ sec _
             (list_to_map
                (group "lan" name sec ("status", status) fields.*2)));
    [done..|].
  etrans; [by apply lan_step_row|]. by rewrite (right_id_L ∅ (∪)).
Qed.

(** A captured session of [showlanstats] with one [Up] row under
    "Received Counters:". *)
Definition sample_row : string :=
  "   eth1     Up      1000    10     0     0     0     0     8     2".


Definition sample_fields : list column :=
  [ ("      ", "1000"); ("    ", "10"); ("     ", "0"); ("     ", "0");
    ("     ", "0"); ("     ", "0"); ("     ", "8"); ("     ", "2") ].

Lemma sample_fields_ok : Forall column_ok sample_fields.
Proof. repeat constructor; discriminate. Qed.

Lemma sample_fields_fit : Forall counter_fits sample_fields.
Proof. apply all_counters_fit. reflexivity. Qed.












(** ** Counting the fields of a line *)

(** The number of blank-separated fields of [s] that start in [s];
    [inside] tells whether [s] begins in the middle of a field. *)
Fixpoint fields_from (inside : bool) (s : string) : nat :=
  match s with
  | EmptyString => O
  | String c s' =>
      if Cls.space c then fields_from false s'
      else ((if inside then 0 else 1) + fields_from true s')%nat
  end.

Lemma fields_blank w s b :
  run_of Cls.space w -> fields_from b (w +:+ s) = fields_from false s.
Proof.
  intros [Hne Hw]. revert b. induction w as [|c w IH]; intros b; [done|].
  rewrite app_cons. simpl in *. apply andb_true_iff in Hw as [-> Hw].
  destruct w as [|c' w]; [done|]. by apply IH.
Qed.

Lemma fields_all_blank w b :
  all_chars Cls.space w = true -> fields_from b w = O.
Proof.
  revert b. induction w as [|c w IH]; intros b; [done|]. simpl.
  intros [-> Hw]%andb_true_iff. by apply IH.
Qed.

Lemma fields_inside t s :
  all_chars Cls.nonspace t = true ->
  fields_from true (t +:+ s) = fields_from true s.
Proof.
  induction t as [|c t IH]; [done|]. rewrite app_cons. simpl.
  intros [Hc Ht]%andb_true_iff. apply nonspace_not_space in Hc as ->.
  by rewrite IH.
Qed.

Lemma fields_token t s :
  run_of Cls.nonspace t ->
  fields_from false (t +:+ s) = S (fields_from true s).
Proof.
  intros [Hne Ht]. destruct t as [|c t]; [done|].
  rewrite app_cons. simpl in *. apply andb_true_iff in Ht as [Hc Ht].
  apply nonspace_not_space in Hc as ->. by rewrite fields_inside.
Qed.

Lemma run_of_impl (p q : ascii -> bool) s :
  (forall c, p c = true -> q c = true) -> run_of p s -> run_of q s.
Proof. intros Hpq [Hne Hs]. split; [done|]. by eapply all_chars_impl. Qed.

Lemma fields_columns (fields : list column) rest :
  Forall column_ok fields ->
  fields_from true (columns fields rest)
  = (length fields + fields_from true rest)%nat.
Proof.
  induction 1 as [|[w d] fs [Hw Hd] _ IH]; [done|]. simpl in *.
  rewrite fields_blank by done.
  rewrite fields_token by (by eapply run_of_impl; [apply digit_nonspace|]).
  by rewrite IH.
Qed.

Lemma fields_lan_row w0 name w1 status fields rest :
  run_of Cls.space w0 -> run_of Cls.word name -> run_of Cls.space w1 ->
  status ∈ statuses -> Forall column_ok fields ->
  fields_from false (lan_row w0 name w1 status fields rest)
  = (2 + length fields + fields_from true rest)%nat.
Proof.
  intros Hw0 Hname Hw1 Hst Hok. unfold lan_row.
  rewrite fields_blank by done.
  rewrite fields_token by (by eapply run_of_impl; [apply word_nonspace|]).
  rewrite fields_blank by done.
  rewrite fields_token by (by apply status_run_of_nonspace).
  by rewrite fields_columns.
Qed.

Lemma fields_wan_row w0 name fields rest :
  run_of Cls.space w0 -> run_of Cls.nonspace name ->
  Forall column_ok fields ->
  fields_from false (wan_row w0 name fields rest)
  = (1 + length fields + fields_from true rest)%nat.
Proof.
  intros Hw0 Hname Hok. unfold wan_row.
  rewrite fields_blank by done. rewrite fields_token by done.
  by rewrite fields_columns.
Qed.

(** Both patterns need ten fields on the line. *)
Lemma lan_match_fields line caps :
  re_match lan_re line = Some caps -> (10 <= fields_from false line)%nat.
Proof.
  intros (w0 & name & w1 & status & fields & rest & -> & Hw0 & Hname & Hw1
          & Hst & Hlen & Hok & _)%lan_match_sound.
  rewrite fields_lan_row by done. lia.
Qed.

Lemma wan_match_fields line caps :
  re_match wan_re line = Some caps -> (10 <= fields_from false line)%nat.
Proof.
  intros (w0 & name & fields & rest & -> & Hw0 & Hname & Hlen & Hok & _)
    %wan_match_sound.
  rewrite fields_wan_row by done. lia.
Qed.

Lemma few_fields_no_match re line :
  (forall caps, re_match re line = Some caps ->
                (10 <= fields_from false line)%nat) ->
  (fields_from false line < 10)%nat -> re_match re line = None.
Proof.
  intros Hre Hlt. destruct (re_match re line) as [caps|] eqn:Hm; [|done].
  specialize (Hre caps eq_refl). lia.
Qed.

(** ** What a matched row does *)

Lemma forallb_false {A} (p : A -> bool) (l : list A) :
  forallb p l = false -> exists x, x ∈ l /\ p x = false.
Proof.
  induction l as [|x l IH]; [done|]. simpl.
  destruct (p x) eqn:Hx; simpl.
  - intros (y & Hy & Hpy)%IH. exists y. split; [by right|done].
  - intros _. exists x. split; [by left|done].
Qed.

(** One of the captured groups is too long for [int]. *)
Definition long_counter_in (caps : captures) : Prop :=
  exists g, g ∈ caps /\ (int_max_str_digits < String.length g)%nat.

(** What the body of [if match and current_section:] does with the
    groups of a matching line: it adds the group of the row to the
    dictionary, whatever that holds, or it raises ValueError because a
    counter is too long, whatever the dictionary holds. *)
Definition row_record (ns lead : string)
    (record : data -> section_tag -> captures -> res data)
    (caps : captures) : Prop :=
  (exists name lead_value (ds : list string),
      length ds = 8%nat /\
      forall (d : data) sec,
        record d sec caps
        = Ret (list_to_map (group ns name sec (lead, lead_value) ds) ∪ d))
  \/ (long_counter_in caps /\
      forall (d : data) sec, record d sec caps = Raise ValueError).

Lemma long_counter_among (fields : list column) (front : list string) :
  forallb counter_fits_b fields = false ->
  long_counter_in (front ++ fields.*2).
Proof.
  intros ([w g] & Hin & Hg)%forallb_false. exists g. split.
  - apply elem_of_app. right. apply list_elem_of_fmap. by exists (w, g).
  - unfold counter_fits_b in Hg. cbn [snd] in Hg.
    by apply negb_false_iff, Nat.ltb_lt in Hg.
Qed.

Lemma lan_row_record line caps :
  re_match lan_re line = Some caps -> row_record "lan" "status" lan_record caps.
Proof.
  intros (w0 & name & w1 & status & fields & rest & _ & _ & _ & _
          & _ & Hlen & Hok & ->)%lan_match_sound.
  destruct (forallb counter_fits_b fields) eqn:Hfit.
  - left. exists name, status, fields.*2. split; [by rewrite length_fmap|].
    intros d sec. by rewrite lan_record_fields, Hfit.
  - right. split; [by apply (long_counter_among fields [name; status])|].
    intros d sec. by rewrite lan_record_fields, Hfit.
Qed.

Lemma wan_row_record line caps :
  re_match wan_re line = Some caps ->
  row_record "wan" "vlan_id" wan_record caps.
Proof.
  intros (w0 & name & fields & rest & _ & _ & _ & Hlen & Hok & ->)
    %wan_match_sound.
  destruct fields as [|[w vlan_id] fields]; [done|].
  apply Forall_cons in Hok as [_ Hok]. simpl in Hlen.
  destruct (forallb counter_fits_b fields) eqn:Hfit.
  - left. exists name, vlan_id, fields.*2.
    split; [rewrite length_fmap; lia|].
    intros d sec. rewrite wan_record_fields, Hfit; [done|lia|done].
  - right. split; [by apply (long_counter_among fields [name; vlan_id])|].
    intros d sec. rewrite wan_record_fields, Hfit; [done|lia|done].
Qed.

(** ** All or nothing *)

(** What one line may do to the dictionary: nothing, or the whole group
    of one row (its leading field and its eight counters). *)
Definition nothing_or_group (ns lead : string) (before after : data) : Prop :=
  after = before \/
  exists name sec lead_value (ds : list string),
    length ds = 8%nat /\
    after = list_to_map (group ns name sec (lead, lead_value) ds) ∪ before.

(** The line is a row inside a section, one of whose counters is too
    long for [int]. *)
Definition long_counter_row (re : regex) (st : pstate) (line : string)
  : Prop :=
  is_Some st.2 /\
  exists caps, re_match re line = Some caps /\ long_counter_in caps.

Lemma stats_step_all_or_nothing ns lead re record (st : pstate) line :
  (forall caps, re_match re line = Some caps ->
                row_record ns lead record caps) ->
  (exists st',
      stats_step re record st line = Ret st' /\
      nothing_or_group ns lead st.1 st'.1)
  \/ (stats_step re record st line = Raise ValueError /\
      long_counter_row re st line).
Proof.
  intros Hrec. destruct st as [d cur]. unfold stats_step.
  destruct (contains "Received Counters:" line);
    [by left; eexists; split; [|left]|].
  destruct (contains "Transmitted Counters:" line);
    [by left; eexists; split; [|left]|].
  destruct (re_match re line) as [caps|] eqn:Hm, cur as [sec|];
    try (by left; eexists; split; [|left]).
  destruct (Hrec caps eq_refl)
    as [(name & v & ds & Hlen & Hd)|[Hlong Hd]]; rewrite Hd.
  - left. eexists. split; [done|]. right. by exists name, sec, v, ds.
  - right. split; [done|]. split; [by eexists|]. by exists caps.
Qed.

(** A group is whole: each of its nine keys is present afterwards. *)
Lemma group_whole ns lead (before after : data) :
  nothing_or_group ns lead before after ->
  after = before \/
  exists name sec,
    forall f, f ∈ lead :: numeric_fields ->
              is_Some (after !! metric_key ns name sec f).
Proof.
  intros [->|(name & sec & v & ds & Hlen & ->)]; [by left|right].
  exists name, sec. intros f Hf. by apply group_present.
Qed.

(** C5.  For the LAN and for the WAN extractor alike, a line leaves the
    dictionary as it was or adds the whole group of one row, never a part
    of it.  The one other outcome is that no mapping results at all: a
    row inside a section with a counter of more than 4300 digits makes
    [int], and with it the extractor, raise ValueError.  A row with fewer
    integer columns than the pattern requires (eight after the status for
    LAN, nine for WAN), followed by blanks at most, leaves the dictionary
    as it was and does not fail. *)
Theorem line_all_or_nothing :
  (forall (st : pstate) line,
      (exists st', lan_step st line = Ret st' /\
                   nothing_or_group "lan" "status" st.1 st'.1)
      \/ (lan_step st line = Raise ValueError /\
          long_counter_row lan_re st line))
  /\ (forall (st : pstate) line,
         (exists st', wan_step st line = Ret st' /\
                      nothing_or_group "wan" "vlan_id" st.1 st'.1)
         \/ (wan_step st line = Raise ValueError /\
             long_counter_row wan_re st line))
  /\ (forall (st : pstate) w0 name w1 status (fields : list column) trailing,
         run_of Cls.space w0 -> run_of Cls.word name ->
         run_of Cls.space w1 -> status ∈ statuses ->
         Forall column_ok fields -> (length fields < 8)%nat ->
         all_chars Cls.space trailing = true ->
         lan_step st (lan_row w0 name w1 status fields trailing) = Ret st)
  /\ (forall (st : pstate) w0 name (fields : list column) trailing,
         run_of Cls.space w0 -> run_of Cls.nonspace name ->
         Forall column_ok fields -> (length fields < 9)%nat ->
         all_chars Cls.space trailing = true ->
         exists cur,
           wan_step st (wan_row w0 name fields trailing) = Ret (st.1, cur)).
Proof.
  split; [|split; [|split]].
  - intros st line. apply stats_step_all_or_nothing.
    intros caps Hm. by eapply lan_row_record.
  - intros st line. apply stats_step_all_or_nothing.
    intros caps Hm. by eapply wan_row_record.
  - intros [d cur] w0 name w1 status fields trailing
      Hw0 Hname Hw1 Hst Hok Hlen Htr.
    destruct (plain_not_header (lan_row w0 name w1 status fields trailing))
      as [Hrx Htx].
    { apply lan_row_plain; [apply Hw0|apply Hname|apply Hw1|done..]. }
    unfold lan_step, stats_step. rewrite Hrx, Htx.
    rewrite (few_fields_no_match lan_re); [done|apply lan_match_fields|].
    rewrite fields_lan_row, (fields_all_blank trailing) by done. lia.
  - intros st w0 name fields trailing Hw0 Hname Hok Hlen Htr.
    apply stats_step_no_match.
    apply few_fields_no_match; [apply wan_match_fields|].
    rewrite fields_wan_row, (fields_all_blank trailing) by done. lia.
Qed.

Lemma line_all_or_nothing_witness :
  lan_step (∅, Some Rx)
    (lan_row "  " "eth1" "  " "Up" [("  ", "1000"); (" ", "10"); (" ", "0")] "")
  = Ret (∅, Some Rx).
Proof.
  apply (proj1 (proj2 (proj2 line_all_or_nothing)) (∅, Some Rx)
           "  " "eth1" "  " "Up" [("  ", "1000"); (" ", "10"); (" ", "0")] "");
    try (split; [discriminate|reflexivity]); try reflexivity.
  - apply list_elem_of_here.
  - repeat constructor; discriminate.
  - simpl. lia.
Defined.

(** ** Text after a row *)

Lemma lan_step_prefix (d : data) sec w0 name w1 status (fields : list column)
    rest :
  run_of Cls.space w0 -> run_of Cls.word name -> run_of Cls.space w1 ->
  status ∈ statuses ->
  length fields = 8%nat -> Forall column_ok fields ->
  Forall counter_fits fields -> stops Cls.digit rest ->
  header_free (lan_row w0 name w1 status fields rest) ->
  lan_step (d, Some sec) (lan_row w0 name w1 status fields rest)
  = Ret (list_to_map (group "lan" name sec ("status", status) fields.*2) ∪ d,
         Some sec).
Proof.
  intros Hw0 Hname Hw1 Hst Hlen Hok Hfit Hrest [Hrx Htx]. unfold lan_step.
  rewrite (stats_step_row _ _ _ _ _ (name :: status :: fields.*2) Hrx Htx).
  - by rewrite lan_record_row.
  - by apply lan_match_complete.
Qed.

Lemma wan_step_prefix (d : data) sec w0 name w vlan_id (fields : list column)
    rest :
  run_of Cls.space w0 -> run_of Cls.nonspace name -> column_ok (w, vlan_id) ->
  length fields = 8%nat -> Forall column_ok fields ->
  Forall counter_fits fields -> stops Cls.digit rest ->
  header_free (wan_row w0 name ((w, vlan_id) :: fields) rest) ->
  wan_step (d, Some sec) (wan_row w0 name ((w, vlan_id) :: fields) rest)
  = Ret (list_to_map (group "wan" name sec ("vlan_id", vlan_id) fields.*2) ∪ d,
         Some sec).
Proof.
  intros Hw0 Hname Hv Hlen Hok Hfit Hrest [Hrx Htx]. unfold wan_step.
  rewrite (stats_step_row _ _ _ _ _
             (name :: ((w, vlan_id) :: fields).*2) Hrx Htx).
  - by rewrite wan_record_row.
  - apply wan_match_complete; [done..|simpl; lia|by constructor|done].
Qed.

Lemma parse_lan_prefix (output : string) (before : list string) header sec
    w0 name w1 status (fields : list column) rest :
  split_lines output
  = (before ++ [header; lan_row w0 name w1 status fields rest])%list ->
  Forall header_free before -> header_for sec header ->
  run_of Cls.space w0 -> run_of Cls.word name -> run_of Cls.space w1 ->
  status ∈ statuses ->
  length fields = 8%nat -> Forall column_ok fields ->
  Forall counter_fits fields -> stops Cls.digit rest ->
  header_free (lan_row w0 name w1 status fields rest) ->
  _parse_lan_stats output
  = Ret (list_to_map (group "lan" name sec ("status", status) fields.*2)).
Proof.
  intros Hlines Hbefore Hheader Hw0 Hname Hw1 Hst Hlen Hok Hfit Hrest Hrow.
  unfold _parse_lan_stats, lan_step. rewrite Hlines.
  rewrite (report_tail _ _ _ _ sec _
             (list_to_map
                (group "lan" name sec ("status", status) fields.*2)));
    [done..|].
  etrans; [by apply lan_step_prefix|]. by rewrite (right_id_L ∅ (∪)).
Qed.

Lemma parse_wan_prefix (output : string) (before : list string) header sec
    w0 name w vlan_id (fields : list column) rest :
  split_lines output
  = (before ++ [header; wan_row w0 name ((w, vlan_id) :: fields) rest])%list ->
  Forall header_free before -> header_for sec header ->
  run_of Cls.space w0 -> run_of Cls.nonspace name -> column_ok (w, vlan_id) ->
  length fields = 8%nat -> Forall column_ok fields ->
  Forall counter_fits fields -> stops Cls.digit rest ->
  header_free (wan_row w0 name ((w, vlan_id) :: fields) rest) ->
  _parse_wan_stats output
  = Ret (list_to_map (group "wan" name sec ("vlan_id", vlan_id) fields.*2)).
Proof.
  intros Hlines Hbefore Hheader Hw0 Hname Hv Hlen Hok Hfit Hrest Hrow.
  unfold _parse_wan_stats, wan_step. rewrite Hlines.
  rewrite (report_tail _ _ _ _ sec _
             (list_to_map
                (group "wan" name sec ("vlan_id", vlan_id) fields.*2)));
    [done..|].
  etrans; [by apply wan_step_prefix|]. by rewrite (right_id_L ∅ (∪)).
Qed.

Definition row_then_header : string :=
  "  eth1 Up 1 2 3 4 5 6 7 8 Received Counters:".

(** C10, as stated, fails: a line of the tx section whose prefix is a
    complete LAN row and whose trailing text is a section header is taken
    as that header; no record is written. *)
Lemma header_text_after_row :
  re_match lan_re row_then_header
  = Some ["eth1"; "Up"; "1"; "2"; "3"; "4"; "5"; "6"; "7"; "8"]
  /\ lan_step (∅, Some Tx) row_then_header = Ret (∅, Some Rx).
Proof.
  split; [reflexivity|].
  by rewrite (stats_step_header_rx lan_re lan_record : forall st line, _ ->
                lan_step st line = _).
Qed.

(** C10, amended.  Inside a section, a line that carries neither section
    header and starts with a complete row (for LAN: blanks, interface
    name, status token, eight integers; for WAN: blanks, interface token,
    VLAN id, eight integers; each of the eight integers of at most 4300
    digits), the last integer ending where its digits end, writes the
    whole group built from those leading fields whatever text follows
    them: the patterns are anchored at the start of the line only.  So a
    report whose lines are lines without a header, then a header, then
    such a line parses to exactly that group. *)
Theorem row_prefix_emits_group :
  (forall (d : data) sec w0 name w1 status (fields : list column) rest,
      run_of Cls.space w0 -> run_of Cls.word name -> run_of Cls.space w1 ->
      status ∈ statuses ->
      length fields = 8%nat -> Forall column_ok fields ->
      Forall counter_fits fields -> stops Cls.digit rest ->
      header_free (lan_row w0 name w1 status fields rest) ->
      lan_step (d, Some sec) (lan_row w0 name w1 status fields rest)
      = Ret (list_to_map
               (group "lan" name sec ("status", status) fields.*2) ∪ d,
             Some sec))
  /\ (forall (d : data) sec w0 name w vlan_id (fields : list column) rest,
         run_of Cls.space w0 -> run_of Cls.nonspace name ->
         column_ok (w, vlan_id) ->
         length fields = 8%nat -> Forall column_ok fields ->
         Forall counter_fits fields -> stops Cls.digit rest ->
         header_free (wan_row w0 name ((w, vlan_id) :: fields) rest) ->
         wan_step (d, Some sec)
           (wan_row w0 name ((w, vlan_id) :: fields) rest)
         = Ret (list_to_map
                  (group "wan" name sec ("vlan_id", vlan_id) fields.*2) ∪ d,
                Some sec))
  /\ (forall (output : string) (before : list string) header sec
             w0 name w1 status (fields : list column) rest,
         split_lines output
         = (before ++ [header; lan_row w0 name w1 status fields rest])%list ->
         Forall header_free before -> header_for sec header ->
         run_of Cls.space w0 -> run_of Cls.word name ->
         run_of Cls.space w1 -> status ∈ statuses ->
         length fields = 8%nat -> Forall column_ok fields ->
         Forall counter_fits fields -> stops Cls.digit rest ->
         header_free (lan_row w0 name w1 status fields rest) ->
         _parse_lan_stats output
         = Ret (list_to_map
                  (group "lan" name sec ("status", status) fields.*2)))
  /\ (forall (output : string) (before : list string) header sec
             w0 name w vlan_id (fields : list column) rest,
         split_lines output
         = (before
            ++ [header; wan_row w0 name ((w, vlan_id) :: fields) rest])%list ->
         Forall header_free before -> header_for sec header ->
         run_of Cls.space w0 -> run_of Cls.nonspace name ->
         column_ok (w, vlan_id) ->
         length fields = 8%nat -> Forall column_ok fields ->
         Forall counter_fits fields -> stops Cls.digit rest ->
         header_free (wan_row w0 name ((w, vlan_id) :: fields) rest) ->
         _parse_wan_stats output
         = Ret (list_to_map
                  (group "wan" name sec ("vlan_id", vlan_id) fields.*2))).
Proof.
  split; [exact lan_step_prefix|]. split; [exact wan_step_prefix|].
  split; [exact parse_lan_prefix|exact parse_wan_prefix].
Qed.

(** A WAN report: the echo of the command, the header of the tx
    section, and a row followed by further text. *)
Definition sample_wan_transcript : string :=
  "showwanstats" +:+ String newline "Transmitted Counters:"
  +:+ String newline
        (wan_row "  " "veip0.1" ((" ", "20") :: sample_fields)
           " 99 # checked").

Lemma row_prefix_emits_group_witness :
  _parse_wan_stats sample_wan_transcript
  = Ret (list_to_map
           (group "wan" "veip0.1" Tx ("vlan_id", "20") sample_fields.*2)).
Proof.
  apply (proj2 (proj2 (proj2 row_prefix_emits_group)) sample_wan_transcript
           ["showwanstats"] "Transmitted Counters:" Tx
           "  " "veip0.1" " " "20" sample_fields " 99 # checked");
    try (split; [discriminate|reflexivity]); try (split; reflexivity);
    try reflexivity.
  - repeat constructor.
  - split; (split; [discriminate|reflexivity]).
  - apply sample_fields_ok.
  - apply sample_fields_fit.
Defined.

(** ** The extractors on arbitrary text *)

(** A loop whose body keeps [P] or raises ValueError does the same. *)
Lemma for_each_cases {S A} (P : S -> Prop) (body : S -> A -> res S) :
  (forall st x, P st ->
                (exists st', body st x = Ret st' /\ P st')
                \/ body st x = Raise ValueError) ->
  forall xs st, P st ->
                (exists st', for_each body st xs = Ret st' /\ P st')
                \/ for_each body st xs = Raise ValueError.
Proof.
  intros Hbody xs. induction xs as [|x xs IH]; intros st Hst; simpl.
  - left. by exists st.
  - destruct (Hbody st x Hst) as [(st1 & -> & Hst1)| ->]; [|by right].
    by apply IH.
Qed.

(** The only exception of the LAN and WAN extractors is the ValueError
    of [int] on a counter that is too long. *)
Lemma _parse_lan_stats_outcome output :
  (exists d, _parse_lan_stats output = Ret d)
  \/ _parse_lan_stats output = Raise ValueError.
Proof.
  unfold _parse_lan_stats.
  destruct (for_each_cases (fun _ => True) lan_step) with
    (xs := split_lines output) (st := ((∅ : data), @None section_tag))
    as [(st' & -> & _)| ->]; [|done|left; by eexists|by right].
  intros st line _.
  destruct (stats_step_all_or_nothing "lan" "status" lan_re lan_record st line)
    as [(st' & Hst & _)|[Hst _]]; [|left; by exists st'|by right].
  intros caps Hm. by eapply lan_row_record.
Qed.

Lemma _parse_wan_stats_outcome output :
  (exists d, _parse_wan_stats output = Ret d)
  \/ _parse_wan_stats output = Raise ValueError.
Proof.
  unfold _parse_wan_stats.
  destruct (for_each_cases (fun _ => True) wan_step) with
    (xs := split_lines output) (st := ((∅ : data), @None section_tag))
    as [(st' & -> & _)| ->]; [|done|left; by eexists|by right].
  intros st line _.
  destruct (stats_step_all_or_nothing "wan" "vlan_id" wan_re wan_record
              st line)
    as [(st' & Hst & _)|[Hst _]]; [|left; by exists st'|by right].
  intros caps Hm. by eapply wan_row_record.
Qed.

(** A reading the transceiver prints when it has no value to show. *)
Definition laser_without_reading : string :=
  "Rx Optical Power = -- dBm".

(** C2.  The laser extractor does not return a mapping on every text:
    where the number of a reading is not a float literal ("--" here),
    [float] raises ValueError and the extractor returns no mapping. *)
Theorem laser_raises_on_malformed_number :
  re_search (laser_re "Rx Optical Power" "dBm") laser_without_reading
  = Some ["--"]
  /\ py_float "--" = Raise ValueError
  /\ _parse_laser_stats laser_without_reading = Raise ValueError.
Proof. by split; [|split]. Qed.

(** ** The session multiplexer *)

(** The text recorded for a read: what arrived, or nothing when the
    read timed out. *)
Definition captured (r : res string) : string :=
  match r with
  | Ret text => text
  | Raise _ => ""
  end.

(** A session that can only go wrong by reads timing out while the
    first [n] commands are run. *)
Record quiet (dev : session) (n : nat) : Prop := Quiet {
  quiet_connected : connected dev = Ret ();
  quiet_process : process_created dev = Ret ();
  quiet_banner : forall e, banner dev = Raise e -> e = TimeoutError;
  quiet_written :
    forall i, (i < n)%nat -> written (exchange_at dev i) = Ret ();
  quiet_read :
    forall i e, (i < n)%nat ->
                read (exchange_at dev i) = Raise e -> e = TimeoutError
}.

Lemma capture_quiet (r : res string) :
  (forall e, r = Raise e -> e = TimeoutError) ->
  capture "" r = Ret (captured r).
Proof.
  intros Hr. destruct r as [text|e]; [done|]. by rewrite (Hr e eq_refl).
Qed.

(** The position of the last occurrence of [c] in [commands]. *)
Definition last_at (commands : list string) (i : nat) (c : string) : Prop :=
  commands !! i = Some c /\
  forall j, (i < j)%nat -> commands !! j <> Some c.

Lemma last_at_exists (commands : list string) c :
  c ∈ commands -> exists i, last_at commands i c.
Proof.
  induction commands as [|c0 cs IH]; [by intros ?%elem_of_nil|].
  intros Hin. destruct (decide (c ∈ cs)) as [Hcs|Hcs].
  - destruct (IH Hcs) as (i & Hi & Hlast). exists (S i). split; [done|].
    intros [|j] Hj; [lia|]. apply Hlast. lia.
  - apply elem_of_cons in Hin as [->|]; [|done]. exists O. split; [done|].
    intros [|j] Hj; [lia|]. simpl. intros Hc. apply Hcs.
    by eapply list_elem_of_lookup_2.
Qed.

Lemma command_loop_spec dev (commands : list string) :
  forall i (results0 : gmap string string),
    (forall j, (j < length commands)%nat ->
               written (exchange_at dev (i + j)) = Ret ()) ->
    (forall j e, (j < length commands)%nat ->
                 read (exchange_at dev (i + j)) = Raise e ->
                 e = TimeoutError) ->
    exists results,
      command_loop dev i commands results0 = Ret results /\
      (forall c, c ∉ commands -> results !! c = results0 !! c) /\
      (forall j c, last_at commands j c ->
                   results !! c
                   = Some (captured (read (exchange_at dev (i + j))))).
Proof.
  induction commands as [|c0 cs IH]; intros i results0 Hw Hr.
  - exists results0. split; [done|]. split; [done|].
    by intros j c [? _].
  - cbn [command_loop].
    pose proof (Hw O ltac:(simpl; lia)) as Hw0.
    rewrite Nat.add_0_r in Hw0. rewrite Hw0. cbn [mbind res_bind].
    rewrite capture_quiet; cycle 1.
    { intros e He. apply (Hr O e); [simpl; lia|]. by rewrite Nat.add_0_r. }
    cbn [mbind res_bind].
    destruct (IH (S i)
                (<[c0 := captured (read (exchange_at dev i))]> results0))
      as (results & -> & Hout & Hin).
    { intros j Hj. replace (S i + j)%nat with (i + S j)%nat by lia.
      apply Hw. simpl. lia. }
    { intros j e Hj. replace (S i + j)%nat with (i + S j)%nat by lia.
      apply Hr. simpl. lia. }
    exists results. split; [done|]. split.
    + intros c [Hc0 Hcs]%not_elem_of_cons.
      by rewrite Hout, lookup_insert_ne.
    + intros [|j] c [Hj Hlast].
      * simpl in Hj. injection Hj as ->. rewrite Hout.
        -- by rewrite lookup_insert_eq, Nat.add_0_r.
        -- intros (j & Hj)%list_elem_of_lookup_1.
           by apply (Hlast (S j) ltac:(lia)).
      * replace (i + S j)%nat with (S i + j)%nat by lia. apply Hin.
        split; [done|]. intros j' Hj'. apply (Hlast (S j')). lia.
Qed.

(** A session whose second read times out. *)
Definition second_read_times_out : session :=
  Session (Ret ()) (Ret ()) (Raise TimeoutError)
    (fun i =>
       match i with
       | 1%nat => Exchange (Ret ()) (Raise TimeoutError)
       | _ => Exchange (Ret ()) (Ret "Rx Optical Power = -21.5 dBm")
       end)
    (Raise SSHError).

(** A session whose writes all succeed and whose second read fails
    with an error of the channel. *)
Definition second_read_breaks : session :=
  Session (Ret ()) (Ret ()) (Raise TimeoutError)
    (fun i =>
       match i with
       | 1%nat => Exchange (Ret ()) (Raise SSHError)
       | _ => Exchange (Ret ()) (Ret "Rx Optical Power = -21.5 dBm")
       end)
    (Ret ()).

(** C6, as stated, fails: that the writes all succeed is not enough.
    Only [asyncio.TimeoutError] is caught around a read; when a read
    raises anything else the multiplexer raises and returns no mapping,
    and the commands after it are not sent. *)
Lemma read_error_loses_mapping :
  connected second_read_breaks = Ret () /\
  process_created second_read_breaks = Ret () /\
  (forall i, written (exchange_at second_read_breaks i) = Ret ()) /\
  _execute_multiple_commands second_read_breaks
    ["showlanstats"; "showwanstats"; "lasercheck"]
  = Raise SSHError.
Proof.
  split; [done|]. split; [done|]. split; [|reflexivity].
  by intros [|[|i]].
Qed.

(** C6, amended.  When the connection is up and every write succeeds,
    and reads either deliver text or time out, the multiplexer returns a
    mapping whose keys are exactly the requested commands; each command
    is mapped to the text captured for it (for a command sent more than
    once, the text of its last run), which is empty when its read timed
    out; a timeout at one command does not stop the later ones. *)
Theorem multiplexer_keeps_every_command :
  forall dev (commands : list string),
    quiet dev (length commands) ->
    exists results,
      _execute_multiple_commands dev commands = Ret results /\
      (forall c, is_Some (results !! c) <-> c ∈ commands) /\
      (forall i c, last_at commands i c ->
                   results !! c = Some (captured (read (exchange_at dev i)))) /\
      (forall i, read (exchange_at dev i) = Raise TimeoutError ->
                 captured (read (exchange_at dev i)) = "").
Proof.
  intros dev commands [Hc Hp Hb Hw Hr].
  destruct (command_loop_spec dev commands O ∅) as (results & Hloop & Hout & Hin);
    [done..|].
  exists results. unfold _execute_multiple_commands.
  rewrite Hc, Hp. cbn [mbind res_bind].
  rewrite (capture_quiet _ Hb). cbn [mbind res_bind].
  rewrite Hloop. cbn [mbind res_bind swallow].
  split; [done|]. split; [|split].
  - intros c. split.
    + intros Hsome. destruct (decide (c ∈ commands)) as [|Hnot]; [done|].
      rewrite (Hout c Hnot), lookup_empty in Hsome. by destruct Hsome.
    + intros (i & Hi)%last_at_exists. rewrite (Hin i c Hi). by eexists.
  - intros i c Hi. by rewrite (Hin i c Hi).
  - by intros i ->.
Qed.

Lemma multiplexer_keeps_every_command_witness :
  exists results,
    _execute_multiple_commands second_read_times_out
      ["showlanstats"; "showwanstats"; "lasercheck"] = Ret results /\
    (forall c, is_Some (results !! c)
               <-> c ∈ ["showlanstats"; "showwanstats"; "lasercheck"]) /\
    (forall i c,
        last_at ["showlanstats"; "showwanstats"; "lasercheck"] i c ->
        results !! c
        = Some (captured (read (exchange_at second_read_times_out i)))) /\
    (forall i,
        read (exchange_at second_read_times_out i) = Raise TimeoutError ->
        captured (read (exchange_at second_read_times_out i)) = "").
Proof.
  apply (multiplexer_keeps_every_command second_read_times_out
           ["showlanstats"; "showwanstats"; "lasercheck"]).
  split; try reflexivity.
  - simpl. intros e [= <-]. reflexivity.
  - intros [|[|[|i]]] Hi; reflexivity.
  - intros [|[|[|i]]] e Hi; simpl; try discriminate.
    intros [= <-]. reflexivity.
Defined.

Example second_read_times_out_results :
  _execute_multiple_commands second_read_times_out
    ["showlanstats"; "showwanstats"; "lasercheck"]
  = Ret (<["lasercheck" := "Rx Optical Power = -21.5 dBm"]>
           (<["showwanstats" := ""]>
              (<["showlanstats" := "Rx Optical Power = -21.5 dBm"]> ∅))).
Proof. reflexivity. Qed.

(** ** The snapshot *)

Lemma get_all_data_session_error dev e :
  _execute_multiple_commands dev ["showlanstats"; "showwanstats"; "lasercheck"]
  = Raise e ->
  get_all_data dev = Ret ∅.
Proof. unfold get_all_data. by intros ->. Qed.

(** [get_all_data] returns a mapping whatever happens. *)
Lemma get_all_data_never_raises dev : exists d, get_all_data dev = Ret d.
Proof. unfold get_all_data. repeat case_match; by eexists. Qed.

(** C1.  When the SSH connection cannot be opened, the session
    multiplexer raises, but [get_all_data] catches the exception, logs it
    and returns the empty mapping; the coordinator callback
    [async_update_data] therefore returns that empty snapshot and does
    not raise UpdateFailed. *)
Theorem connection_error_is_swallowed :
  forall (e : exn) (p : res unit) (b : res string) (x : nat -> exchange)
         (w : res unit),
    _execute_multiple_commands (Session (Raise e) p b x w)
      ["showlanstats"; "showwanstats"; "lasercheck"] = Raise e
    /\ get_all_data (Session (Raise e) p b x w) = Ret ∅
    /\ async_update_data (Session (Raise e) p b x w) = Ret ∅.
Proof. by intros e p b x w. Qed.

(** ** The speed sensor *)

Lemma time_diff_nonpos (m : Z) : Qle_bool (total_seconds m) 0 = (m <=? 0)%Z.
Proof. unfold Qle_bool, total_seconds. simpl. by rewrite Z.mul_1_r. Qed.

Lemma int_diff_negative (v pv : Z) :
  negb (Qle_bool 0 (inject_Z v - inject_Z pv)) = (v <? pv)%Z.
Proof.
  unfold Qle_bool. simpl.
  destruct (Z.ltb_spec v pv), (Z.leb_spec 0 ((v * 1 + - pv * 1) * 1)%Z);
    simpl; try done; lia.
Qed.

(** The sensor once it has taken [v] at time [t] as its cursor. *)
Definition with_cursor (self : speed_sensor) (v : value) (t : time)
  : speed_sensor :=
  SpeedSensor (_source_key self) (Some v) (Some t) (_cached_speed self).

Lemma native_value_first depth now tick (d : data) self v :
  d !! _source_key self = Some v ->
  _last_value self = None \/ _last_update self = None ->
  native_value (S depth) now tick d self
  = (Ret (Some 0%Q), with_cursor self v (now tick), S tick).
Proof.
  intros Hd Hnone. cbn [native_value]. rewrite Hd.
  destruct Hnone as [-> | ->]; [done|]. by destruct (_last_value self).
Qed.

Lemma native_value_later depth now tick (d : data) self v pv t0 :
  d !! _source_key self = Some (VInt v) ->
  _last_value self = Some (VInt pv) -> _last_update self = Some t0 ->
  (t0 < now tick)%Z ->
  native_value (S depth) now tick d self
  = if (v <? pv)%Z then
      (Ret (Some 0%Q), with_cursor self (VInt v) (now tick), S tick)
    else
      let rate :=
        round2 ((inject_Z v - inject_Z pv) / total_seconds (now tick - t0)) in
      (Ret (Some rate),
       SpeedSensor (_source_key self) (Some (VInt v)) (Some (now tick))
         (Some rate),
       S tick).
Proof.
  intros Hd Hv Ht Hlt. cbn [native_value]. rewrite Hd, Hv, Ht.
  rewrite time_diff_nonpos.
  destruct (Z.leb_spec (now tick - t0) 0); [lia|].
  cbn [py_sub num_of mbind res_bind]. by rewrite int_diff_negative.
Qed.

(** While the clock has not moved past the cursor and a speed is
    cached, the property calls itself. *)
Lemma native_value_reenters depth now tick (d : data) self v pv t0 rate :
  d !! _source_key self = Some v ->
  _last_value self = Some pv -> _last_update self = Some t0 ->
  _cached_speed self = Some rate ->
  (now tick <= t0)%Z ->
  native_value (S depth) now tick d self
  = native_value depth now (S tick) d self.
Proof.
  intros Hd Hv Ht Hc Hle. cbn [native_value]. rewrite Hd, Hv, Ht.
  rewrite time_diff_nonpos.
  destruct (Z.leb_spec (now tick - t0) 0); [|lia]. by rewrite Hc.
Qed.

Definition speed_key : string := "lan_eth1_rx_total_bytes".

(** What the coordinator holds when the counter reads [v]. *)
Definition reading (v : Z) : data := <[speed_key := VInt v]> ∅.

Lemma reading_lookup v self :
  _source_key self = speed_key ->
  reading v !! _source_key self = Some (VInt v).
Proof. intros ->. apply lookup_insert_eq. Qed.

(** C9.  A sensor without a stored cursor, which is every sensor when
    it is created (cursors live in the object only), takes the first
    value it reads and the time of that reading as its cursor and
    returns 0. *)
Theorem first_observation_is_baseline :
  forall depth now tick (d : data) self v,
    d !! _source_key self = Some v ->
    _last_value self = None \/ _last_update self = None ->
    native_value (S depth) now tick d self
    = (Ret (Some 0%Q), with_cursor self v (now tick), S tick)
    /\ _last_value (new_speed_sensor (_source_key self)) = None
    /\ _last_update (new_speed_sensor (_source_key self)) = None.
Proof.
  intros depth now tick d self v Hd Hnone.
  split; [by apply native_value_first|done].
Qed.

Lemma first_observation_is_baseline_witness :
  native_value 1 (fun _ => 0%Z) 0 (reading 100) (new_speed_sensor speed_key)
  = (Ret (Some 0%Q),
     SpeedSensor speed_key (Some (VInt 100)) (Some 0%Z) None, 1%nat).
Proof.
  refine (proj1 (first_observation_is_baseline 0 (fun _ => 0%Z) 0
                   (reading 100) (new_speed_sensor speed_key) (VInt 100)
                   _ _)).
  - reflexivity.
  - left. reflexivity.
Defined.

(** C7.  With a stored cursor, a strictly later reading of the clock
    and a counter strictly below the stored one, the sensor takes the
    current value and time as its new cursor and returns 0; the rate is
    never negative.  In particular 120 at t0+10s after the cursor
    (150, t0+5s) returns 0 and leaves the cursor (120, t0+10s). *)
Theorem counter_reset_is_baseline :
  forall depth now tick (d : data) self v pv t0,
    d !! _source_key self = Some (VInt v) ->
    _last_value self = Some (VInt pv) -> _last_update self = Some t0 ->
    (t0 < now tick)%Z -> (v < pv)%Z ->
    native_value (S depth) now tick d self
    = (Ret (Some 0%Q), with_cursor self (VInt v) (now tick), S tick).
Proof.
  intros depth now tick d self v pv t0 Hd Hv Ht Hlt Hreset.
  rewrite (native_value_later _ _ _ _ _ v pv t0) by done.
  by destruct (Z.ltb_spec v pv); [|lia].
Qed.

Lemma counter_reset_is_baseline_witness :
  native_value 1 (fun _ => 10000000%Z) 0 (reading 120)
    (SpeedSensor speed_key (Some (VInt 150)) (Some 5000000%Z) (Some 10%Q))
  = (Ret (Some 0%Q),
     SpeedSensor speed_key (Some (VInt 120)) (Some 10000000%Z) (Some 10%Q),
     1%nat).
Proof.
  refine (counter_reset_is_baseline 0 (fun _ => 10000000%Z) 0 (reading 120)
            (SpeedSensor speed_key (Some (VInt 150)) (Some 5000000%Z)
               (Some 10%Q))
            120 150 5000000 _ _ _ _ _);
    try reflexivity; lia.
Defined.

(** The sensor after 200 was read at t0+10s and a speed of 10 was
    reported. *)
Definition settled_sensor : speed_sensor :=
  SpeedSensor speed_key (Some (VInt 200)) (Some 10000000%Z) (Some 10%Q).

(** C3.  With a cursor and a cached speed, a reading of the clock that
    is not later than the cursor does not return the cached speed: the
    property calls itself.  While the clock stands still it does so
    until the interpreter raises RecursionError, whatever the recursion
    limit; once the clock has moved by a microsecond the call computes a
    rate over that microsecond (5 bytes in 1 µs: 5000000 bytes per
    second) and moves the cursor. *)
Theorem same_instant_reobservation_recurses :
  (forall depth tick,
      native_value depth (fun _ => 10000000%Z) tick (reading 205)
        settled_sensor
      = (Raise RecursionError, settled_sensor, (tick + depth)%nat))
  /\ (forall depth,
         native_value (S (S depth)) (fun n => (10000000 + Z.of_nat n)%Z) 0
           (reading 205) settled_sensor
         = (Ret (Some 5000000%Q),
            SpeedSensor speed_key (Some (VInt 205)) (Some 10000001%Z)
              (Some 5000000%Q),
            2%nat)).
Proof.
  split.
  - induction depth as [|depth IH]; intros tick.
    + by rewrite Nat.add_0_r.
    + rewrite (native_value_reenters _ _ _ _ _ (VInt 205) (VInt 200)
                 10000000 10%Q)
        by first [by apply reading_lookup | reflexivity | lia].
      rewrite IH. f_equal. lia.
  - intros depth.
    rewrite (native_value_reenters _ _ _ _ _ (VInt 205) (VInt 200)
               10000000 10%Q)
      by first [by apply reading_lookup | reflexivity | simpl; lia].
    rewrite (native_value_later _ _ _ _ _ 205 200 10000000)
      by first [by apply reading_lookup | reflexivity | simpl; lia].
    reflexivity.
Qed.

(** * Further properties of the speed sensor *)

(** The cursor is whole: a value and a time, or neither. *)
Definition cursor_whole (self : speed_sensor) : Prop :=
  is_Some (_last_value self) <-> is_Some (_last_update self).

(** [t] is no later than the time of the cursor, if there is one. *)
Definition not_before (t : time) (self : speed_sensor) : Prop :=
  match _last_update self with
  | Some t' => (t <= t')%Z
  | None => True
  end.

Lemma round2_nonneg (q : Q) : (0 <= q)%Q -> (0 <= round2 q)%Q.
Proof.
  intros Hq. unfold round2. rewrite Qred_correct.
  assert (0 <= round_half_even (q * 100))%Z as Hz.
  { unfold round_half_even. destruct q as [n d].
    unfold Qle in Hq. cbn in Hq. cbn [Qnum Qden Qmult].
    assert (0 <= n * 100 / Z.pos (d * 1))%Z by (apply Z.div_pos; lia).
    repeat case_match; lia. }
  unfold Qle. cbn. lia.
Qed.

Lemma quotient_nonneg (value_diff time_diff : Q) :
  Qle_bool time_diff 0 = false ->
  negb (Qle_bool 0 value_diff) = false ->
  (0 <= value_diff / time_diff)%Q.
Proof.
  intros Ht Hv. apply negb_false_iff, Qle_bool_iff in Hv.
  assert (0 < time_diff)%Q as Hpos.
  { apply Qnot_le_lt. intros Hle. apply Qle_bool_iff in Hle. congruence. }
  apply Qle_shift_div_l; [done|]. by rewrite Qmult_0_l.
Qed.

(** The time of the cursor of the sensor a call leaves behind. *)
Definition cursor_time_after (r : res (option Q) * speed_sensor * nat)
  : option time :=
  _last_update r.1.2.

(** X1.  Whatever the clock, the dictionary and the sensor hold, a value
    the speed sensor returns is never negative. *)
Theorem speed_never_negative :
  forall depth now tick (d : data) self rate self' tick',
    native_value depth now tick d self = (Ret (Some rate), self', tick') ->
    (0 <= rate)%Q.
Proof.
  induction depth as [|depth IH]; intros now tick d self rate self' tick';
    [done|].
  cbn [native_value].
  destruct (d !! _source_key self) as [current_value|]; [|done].
  destruct (_last_value self) as [last_value|]; [|by intros [= <- _ _]].
  destruct (_last_update self) as [last_update|]; [|by intros [= <- _ _]].
  destruct (Qle_bool (total_seconds (now tick - last_update)) 0) eqn:Ht.
  { destruct (_cached_speed self); [by apply IH|by intros [= <- _ _]]. }
  destruct (py_sub current_value last_value) as [value_diff|]; [|done].
  destruct (negb (Qle_bool 0 value_diff)) eqn:Hv; [by intros [= <- _ _]|].
  intros [= <- _ _]. by apply round2_nonneg, quotient_nonneg.
Qed.

Lemma speed_never_negative_witness :
  (0 <= 10)%Q.
Proof.
  apply (speed_never_negative 1 (fun _ => 5000000%Z) 0 (reading 150)
           (with_cursor (new_speed_sensor speed_key) (VInt 100) 0%Z)
           10%Q
           (SpeedSensor speed_key (Some (VInt 150)) (Some 5000000%Z)
              (Some 10%Q))
           1%nat).
  reflexivity.
Defined.

Lemma cursor_whole_set key v t c :
  cursor_whole (SpeedSensor key (Some v) (Some t) c).
Proof. unfold cursor_whole. simpl. split; by eexists. Qed.

(** X2.  A call keeps the cursor whole and never moves its time
    backwards: the sensor afterwards has a value and a time or neither,
    and a time no earlier than before. *)
Theorem cursor_moves_forward :
  forall depth now tick (d : data) self,
    cursor_whole self ->
    cursor_whole (native_value depth now tick d self).1.2
    /\ forall t0, _last_update self = Some t0 ->
                  not_before t0 (native_value depth now tick d self).1.2.
Proof.
  induction depth as [|depth IH]; intros now tick d self Hwhole.
  { split; [done|]. intros t0 Ht. unfold not_before. simpl. by rewrite Ht. }
  cbn [native_value].
  destruct (d !! _source_key self) as [current_value|]; cycle 1.
  { split; [done|]. intros t0 Ht. unfold not_before. simpl. by rewrite Ht. }
  unfold cursor_whole in Hwhole.
  destruct (_last_value self) as [last_value|] eqn:Hv; cycle 1.
  { split; [by apply cursor_whole_set|]. intros t0 Ht.
    rewrite Ht in Hwhole. destruct Hwhole as [_ Hw].
    by destruct (Hw ltac:(by eexists)). }
  destruct (_last_update self) as [last_update|] eqn:Hu; cycle 1.
  { split; [by apply cursor_whole_set|done]. }
  assert (cursor_whole self) as Hself.
  { unfold cursor_whole. by rewrite Hv, Hu. }
  assert (not_before last_update self) as Hsame.
  { unfold not_before. by rewrite Hu. }
  rewrite time_diff_nonpos.
  destruct (Z.leb_spec (now tick - last_update) 0) as [Hle|Hlt].
  { destruct (_cached_speed self).
    - destruct (IH now (S tick) d self Hself) as [Hw Hm].
      split; [done|]. intros t0 [= <-]. by apply Hm.
    - split; [done|]. by intros t0 [= <-]. }
  destruct (py_sub current_value last_value) as [value_diff|e].
  - destruct (negb (Qle_bool 0 value_diff));
      (split; [by apply cursor_whole_set|]; intros t0 [= <-];
       unfold not_before; simpl; lia).
  - split; [done|]. by intros t0 [= <-].
Qed.

Lemma cursor_moves_forward_witness :
  cursor_whole
    (native_value 1 (fun _ => 5000000%Z) 0 (reading 150)
       (new_speed_sensor speed_key)).1.2
  /\ forall t0, _last_update (new_speed_sensor speed_key) = Some t0 ->
       not_before t0
         (native_value 1 (fun _ => 5000000%Z) 0 (reading 150)
            (new_speed_sensor speed_key)).1.2.
Proof.
  apply (cursor_moves_forward 1 (fun _ => 5000000%Z) 0 (reading 150)
           (new_speed_sensor speed_key)).
  unfold cursor_whole. simpl. split; intros [x Hx]; discriminate.
Defined.

Lemma native_value_none depth now (d : data) self :
  forall tick self' tick',
    native_value depth now tick d self = (Ret None, self', tick') ->
    d !! _source_key self = None.
Proof.
  induction depth as [|depth IH]; intros tick self' tick'; [done|].
  cbn [native_value].
  destruct (d !! _source_key self) as [current_value|]; [|done].
  destruct (_last_value self) as [last_value|]; [|done].
  destruct (_last_update self) as [last_update|]; [|done].
  destruct (Qle_bool (total_seconds (now tick - last_update)) 0).
  { destruct (_cached_speed self); [|done]. intros Hrec.
    by apply IH in Hrec. }
  destruct (py_sub current_value last_value) as [value_diff|]; [|done].
  by destruct (negb (Qle_bool 0 value_diff)).
Qed.

(** X3.  The speed sensor returns [None] exactly when its source key is
    missing from the coordinator's data; it then leaves the sensor as it
    was and does not read the clock. *)
Theorem speed_none_iff_key_missing :
  forall depth now tick (d : data) self,
    (d !! _source_key self = None ->
     native_value (S depth) now tick d self = (Ret None, self, tick))
    /\ (forall self' tick',
           native_value depth now tick d self = (Ret None, self', tick') ->
           d !! _source_key self = None).
Proof.
  intros depth now tick d self. split.
  - intros Hd. cbn [native_value]. by rewrite Hd.
  - apply native_value_none.
Qed.

Lemma clock_stuck_recursion depth now (d : data) self v pv t0 rate :
  d !! _source_key self = Some v ->
  _last_value self = Some pv -> _last_update self = Some t0 ->
  _cached_speed self = Some rate ->
  (forall n, (now n <= t0)%Z) ->
  forall tick,
    native_value depth now tick d self
    = (Raise RecursionError, self, (tick + depth)%nat).
Proof.
  intros Hd Hv Ht Hc Hnow.
  induction depth as [|depth IH]; intros tick.
  - by rewrite Nat.add_0_r.
  - rewrite (native_value_reenters _ _ _ _ _ v pv t0 rate) by done.
    rewrite IH. f_equal. lia.
Qed.

(** X4.  A reading of the clock that is not later than the cursor:
    while no speed has been cached the sensor returns 0 and stays as it
    was; once a speed is cached and the clock does not pass the cursor
    (it stands still or was set back), the call ends in RecursionError
    whatever the recursion limit, and the sensor stays as it was. *)
Theorem clock_not_later_than_cursor :
  forall depth now tick (d : data) self v pv t0,
    d !! _source_key self = Some v ->
    _last_value self = Some pv -> _last_update self = Some t0 ->
    (forall n, (now n <= t0)%Z) ->
    match _cached_speed self with
    | None =>
        native_value (S depth) now tick d self
        = (Ret (Some 0%Q), self, S tick)
    | Some _ =>
        native_value depth now tick d self
        = (Raise RecursionError, self, (tick + depth)%nat)
    end.
Proof.
  intros depth now tick d self v pv t0 Hd Hv Ht Hnow.
  destruct (_cached_speed self) as [rate|] eqn:Hc.
  - by eapply clock_stuck_recursion.
  - cbn [native_value]. rewrite Hd, Hv, Ht, time_diff_nonpos.
    destruct (Z.leb_spec (now tick - t0) 0) as [_|Hlt]; [by rewrite Hc|].
    specialize (Hnow tick). lia.
Qed.

Lemma clock_not_later_than_cursor_witness :
  native_value 1000 (fun _ => 6400000%Z) 0 (reading 205) settled_sensor
  = (Raise RecursionError, settled_sensor, 1000%nat).
Proof.
  refine (clock_not_later_than_cursor 1000 (fun _ => 6400000%Z) 0
            (reading 205) settled_sensor (VInt 205) (VInt 200) 10000000
            _ _ _ _); try reflexivity.
  intros n. lia.
Defined.

(** ** The plain sensor *)

(** What an entity sees of its [DataUpdateCoordinator]. *)
Record coordinator : Type := Coordinator {
  coordinator_data : data;
  last_update_success : bool
}.

(** [MitrastarSensor.native_value]: [self.coordinator.data.get(self._key)]. *)
Definition sensor_native_value (c : coordinator) (key : string)
  : option value :=
  coordinator_data c !! key.

(** [available], the same for both sensor classes. *)
Definition available (c : coordinator) (key : string) : bool :=
  last_update_success c && bool_decide (is_Some (coordinator_data c !! key)).

(** X5.  An available sensor has a value: a plain sensor's state is not
    [None], and a speed sensor does not return [None] either. *)
Theorem available_has_value :
  forall (c : coordinator) (key : string),
    available c key = true ->
    is_Some (sensor_native_value c key)
    /\ forall depth now tick self self' tick',
         _source_key self = key ->
         native_value depth now tick (coordinator_data c) self
         <> (Ret None, self', tick').
Proof.
  intros c key [_ Hkey%bool_decide_eq_true]%andb_true_iff.
  split; [done|].
  intros depth now tick self self' tick' <- Hnone.
  apply native_value_none in Hnone.
  rewrite Hnone in Hkey. by destruct Hkey.
Qed.

Lemma available_has_value_witness :
  is_Some (sensor_native_value (Coordinator (reading 150) true) speed_key).
Proof.
  apply (available_has_value (Coordinator (reading 150) true) speed_key).
  reflexivity.
Defined.

(** * Further properties of the session layer *)

(** [_execute_ssh_command]: one command in a session of its own.  As
    in the multiplexer, the three handlers of the outer [try] re-raise. *)
Definition _execute_ssh_command (dev : session) (command : string)
  : res string :=
  _ ← connected dev;
  _ ← process_created dev;
  _ ← capture "" (banner dev);
  _ ← written (exchange_at dev 0);
  output ← capture "" (read (exchange_at dev 0));
  _ ← swallow (exit_written dev);
  Ret output.

(** [test_connection]: [True] when the answer to "lasercheck" shows an
    optical reading, [False] on any exception. *)
Definition test_connection (dev : session) : res bool :=
  match _execute_ssh_command dev "lasercheck" with
  | Ret output => Ret (contains "Rx Optical Power" output)
  | Raise _ => Ret false
  end.

(** What [validate_input] and [async_step_user] of [config_flow.py] can
    raise or catch. *)
Inductive flow_exn : Type :=
| CannotConnect
| Unexpected (e : exn).

(** [validate_input]: the result of [test_connection] is awaited and
    dropped; only an exception of it becomes [CannotConnect]. *)
Definition validate_input (dev : session) (host : string)
  : flow_exn + string :=
  match test_connection dev with
  | Raise err => inl CannotConnect
  | Ret _ => inr ("Mitrastar Router " +:+ host)
  end.

Inductive flow_result : Type :=
| CreateEntry (title : string) (host username password : string)
| ShowForm (errors : gmap string string).

(** [ConfigFlow.async_step_user]. *)
Definition async_step_user (dev : session)
    (user_input : option (string * string * string)) : flow_result :=
  match user_input with
  | Some (host, username, password) =>
      match validate_input dev host with
      | inr title => CreateEntry title host username password
      | inl CannotConnect => ShowForm {["base" := "cannot_connect"]}
      | inl (Unexpected _) => ShowForm {["base" := "unknown"]}
      end
  | None => ShowForm ∅
  end.

(** The first [n] commands go through: the connection is up, their
    writes succeed and their reads deliver text or time out. *)
Lemma command_loop_raises dev e (commands : list string) :
  forall n i (results0 : gmap string string),
    (n < length commands)%nat ->
    (forall j, (j < n)%nat -> written (exchange_at dev (i + j)) = Ret ()) ->
    (forall j e', (j < n)%nat ->
                  read (exchange_at dev (i + j)) = Raise e' ->
                  e' = TimeoutError) ->
    (written (exchange_at dev (i + n)) = Raise e
     \/ written (exchange_at dev (i + n)) = Ret () /\
        read (exchange_at dev (i + n)) = Raise e /\ e <> TimeoutError) ->
    command_loop dev i commands results0 = Raise e.
Proof.
  induction commands as [|c0 cs IH]; intros n i results0 Hn Hw Hr Hbad;
    [simpl in Hn; lia|].
  cbn [command_loop]. destruct n as [|n].
  - rewrite Nat.add_0_r in Hbad.
    destruct Hbad as [-> | (-> & Hread & Hne)]; [done|].
    cbn [mbind res_bind]. rewrite Hread. by destruct e.
  - pose proof (Hw O ltac:(lia)) as Hw0. rewrite Nat.add_0_r in Hw0.
    rewrite Hw0. cbn [mbind res_bind].
    rewrite capture_quiet; cycle 1.
    { intros e' He'. apply (Hr O e'); [lia|]. by rewrite Nat.add_0_r. }
    cbn [mbind res_bind]. apply (IH n).
    + simpl in Hn. lia.
    + intros j Hj. replace (S i + j)%nat with (i + S j)%nat by lia.
      apply Hw. lia.
    + intros j e' Hj. replace (S i + j)%nat with (i + S j)%nat by lia.
      apply Hr. lia.
    + by replace (S i + n)%nat with (i + S n)%nat by lia.
Qed.

(** X6.  When the write of a command fails, or its read fails with
    anything but a timeout, after [n] commands went through, the
    multiplexer raises that exception: the texts already captured for
    the first [n] commands are not returned. *)
Theorem multiplexer_aborts_on_failure :
  forall dev (commands : list string) n e,
    quiet dev n -> (n < length commands)%nat ->
    (written (exchange_at dev n) = Raise e
     \/ written (exchange_at dev n) = Ret () /\
        read (exchange_at dev n) = Raise e /\ e <> TimeoutError) ->
    _execute_multiple_commands dev commands = Raise e.
Proof.
  intros dev commands n e [Hc Hp Hb Hw Hr] Hn Hbad.
  unfold _execute_multiple_commands. rewrite Hc, Hp. cbn [mbind res_bind].
  rewrite (capture_quiet _ Hb). cbn [mbind res_bind].
  by rewrite (command_loop_raises dev e commands n O ∅).
Qed.

(** A session whose third write fails. *)
Definition third_write_fails : session :=
  Session (Ret ()) (Ret ()) (Ret "> ")
    (fun i =>
       match i with
       | 2%nat => Exchange (Raise SSHError) (Ret "")
       | _ => Exchange (Ret ()) (Ret "Received Counters:")
       end)
    (Ret ()).

Lemma multiplexer_aborts_on_failure_witness :
  _execute_multiple_commands third_write_fails
    ["showlanstats"; "showwanstats"; "lasercheck"] = Raise SSHError.
Proof.
  apply (multiplexer_aborts_on_failure third_write_fails
           ["showlanstats"; "showwanstats"; "lasercheck"] 2 SSHError).
  - split; try reflexivity.
    + intros e [=].
    + intros [|[|i]] Hi; try reflexivity. lia.
    + intros [|[|i]] e Hi; try discriminate. lia.
  - simpl. lia.
  - left. reflexivity.
Defined.

(** X7.  Running one command through the multiplexer is running it
    through [_execute_ssh_command]: the same exception, or the one-entry
    mapping from the command to the same text. *)
Theorem single_command_agrees :
  forall dev (command : string),
    _execute_multiple_commands dev [command]
    = (output ← _execute_ssh_command dev command;
       Ret ({[command := output]} : gmap string string)).
Proof.
  intros dev command.
  unfold _execute_multiple_commands, _execute_ssh_command.
  destruct (connected dev); [|done].
  destruct (process_created dev); [|done].
  destruct (capture "" (banner dev)); [|done].
  cbn [mbind res_bind command_loop].
  destruct (written (exchange_at dev 0)); [|done].
  cbn [mbind res_bind].
  destruct (capture "" (read (exchange_at dev 0))); [|done].
  cbn [mbind res_bind swallow]. by rewrite insert_empty.
Qed.

Lemma test_connection_never_raises dev :
  exists ok, test_connection dev = Ret ok.
Proof.
  unfold test_connection.
  destruct (_execute_ssh_command dev "lasercheck"); by eexists.
Qed.

(** X8.  [test_connection] never raises, and it answers [True] only
    when the connection was opened, the command was written and the text
    read back contains "Rx Optical Power"; in particular a read that
    times out gives [False]. *)
Theorem test_connection_true_only_with_reading :
  forall dev,
    exists ok,
      test_connection dev = Ret ok /\
      (ok = true ->
       connected dev = Ret () /\ process_created dev = Ret () /\
       written (exchange_at dev 0) = Ret () /\
       exists output,
         read (exchange_at dev 0) = Ret output /\
         contains "Rx Optical Power" output = true).
Proof.
  intros dev. unfold test_connection, _execute_ssh_command.
  destruct (connected dev) as [[]|]; [|by eexists].
  destruct (process_created dev) as [[]|]; [|by eexists].
  destruct (capture "" (banner dev)); [|by eexists].
  cbn [mbind res_bind].
  destruct (written (exchange_at dev 0)) as [[]|]; [|by eexists].
  cbn [mbind res_bind].
  destruct (read (exchange_at dev 0)) as [output|e] eqn:Hread.
  - eexists. split; [done|]. intros Hok. repeat split. by exists output.
  - destruct e; by eexists.
Qed.

(** X9.  [validate_input] never raises [CannotConnect]: it returns the
    title whatever the session does, because [test_connection] turns
    every failure into [False] and its result is not looked at.  Hence
    [async_step_user] creates the entry for every user input. *)
Theorem config_flow_always_creates_entry :
  forall dev (host username password : string),
    validate_input dev host = inr ("Mitrastar Router " +:+ host)
    /\ async_step_user dev (Some (host, username, password))
       = CreateEntry ("Mitrastar Router " +:+ host) host username password.
Proof.
  intros dev host username password.
  assert (validate_input dev host = inr ("Mitrastar Router " +:+ host)) as Hv.
  { unfold validate_input.
    by destruct (test_connection_never_raises dev) as [ok ->]. }
  split; [done|]. unfold async_step_user. by rewrite Hv.
Qed.

(** * The device identity *)

(** [.] of [re] without DOTALL: anything but a newline. *)
Definition not_newline (c : ascii) : bool := negb (Ascii.eqb c newline).

(** [s.lstrip()], [s.rstrip()] and [s.strip()]. *)
Fixpoint lstrip (s : string) : string :=
  match s with
  | EmptyString => EmptyString
  | String c s' => if Cls.space c then lstrip s' else s
  end.

Fixpoint rstrip (s : string) : string :=
  match s with
  | EmptyString => EmptyString
  | String c s' =>
      match rstrip s' with
      | EmptyString => if Cls.space c then EmptyString else String c EmptyString
      | t => String c t
      end
  end.

Definition strip (s : string) : string := rstrip (lstrip s).

(** [head + r"\s+:\s+(.+)"]. *)
Definition info_re (head : regex) : regex :=
  Seq head (seqs [ws; Chr (Cls.just ":"); ws; Group (Plus not_newline)]).

(** [r"MLD\s+Version"], the only label with a class inside. *)
Definition mld_version : regex := Seq (lit "MLD") (Seq ws (lit "Version")).

(** One [re.search] / [if m: device_info[key] = m.group(1).strip()] pair
    of [get_device_info]. *)
Definition info_field (head : regex) (key : string) (output : string)
    (device_info : gmap string string) : res (gmap string string) :=
  match re_search (info_re head) output with
  | Some (g1 :: _) => Ret (<[key := strip g1]> device_info)
  | Some [] => Raise IndexError
  | None => Ret device_info
  end.

(** [get_device_info]: as in [get_all_data], the body sits in a [try]
    whose handler only logs, and [device_info] is returned as far as it
    was filled. *)
Definition get_device_info (dev : session) : res (gmap string string) :=
  let device_info : gmap string string := ∅ in
  match _execute_ssh_command dev "sys atsh" with
  | Raise err => Ret device_info
  | Ret output =>
    match info_field mld_version "sw_version" output device_info with
    | Raise err => Ret device_info
    | Ret device_info =>
      match
        info_field (lit "Bootbase Version") "hw_version" output device_info
      with
      | Raise err => Ret device_info
      | Ret device_info =>
        match
          info_field (lit "Vendor Name") "manufacturer" output device_info
        with
        | Raise err => Ret device_info
        | Ret device_info =>
          match
            info_field (lit "Product Model") "model" output device_info
          with
          | Raise err => Ret device_info
          | Ret device_info =>
            match
              info_field (lit "Serial Number") "serial_number" output
                device_info
            with
            | Raise err => Ret device_info
            | Ret device_info => Ret device_info
            end
          end
        end
      end
    end
  end.

(** [hay.find(needle)], [None] for -1. *)
Fixpoint find (needle hay : string) : option nat :=
  if String.prefix needle hay then Some O
  else match hay with
       | String _ hay' => S <$> find needle hay'
       | EmptyString => None
       end.

(** ** Stripping *)

Definition clean_start (s : string) : Prop := stops Cls.space s.

(** [s] does not end in a blank. *)
Fixpoint clean_end (s : string) : Prop :=
  match s with
  | EmptyString => True
  | String c EmptyString => Cls.space c = false
  | String _ s' => clean_end s'
  end.

Lemma lstrip_clean_start s : clean_start (lstrip s).
Proof.
  induction s as [|c s IH]; [done|]. simpl.
  by destruct (Cls.space c) eqn:Hc.
Qed.

Lemma lstrip_id s : clean_start s -> lstrip s = s.
Proof. destruct s as [|c s]; [done|]. simpl. by intros ->. Qed.

Lemma rstrip_clean_start s : clean_start s -> clean_start (rstrip s).
Proof.
  destruct s as [|c s]; [done|]. simpl. intros Hc.
  destruct (rstrip s); [by rewrite Hc|done].
Qed.

Lemma rstrip_clean_end s : clean_end (rstrip s).
Proof.
  induction s as [|c s IH]; [done|]. simpl.
  destruct (rstrip s) as [|c' t] eqn:Ht.
  - by destruct (Cls.space c) eqn:Hc.
  - done.
Qed.

Lemma rstrip_id s : clean_end s -> rstrip s = s.
Proof.
  induction s as [|c s IH]; [done|]. simpl.
  destruct s as [|c' s'].
  - simpl. by intros ->.
  - intros Hs. by rewrite (IH Hs).
Qed.

Lemma strip_clean s : clean_start (strip s) /\ clean_end (strip s).
Proof.
  unfold strip. split.
  - apply rstrip_clean_start, lstrip_clean_start.
  - apply rstrip_clean_end.
Qed.

Lemma strip_id s : clean_start s -> clean_end s -> strip s = s.
Proof. intros Hs He. unfold strip. by rewrite lstrip_id, rstrip_id. Qed.

Lemma strip_strip s : strip (strip s) = strip s.
Proof. apply strip_id; apply strip_clean. Qed.

(** ** Searching *)

Lemma re_search_sound r s caps :
  re_search r s = Some caps ->
  exists pre s0, s = pre +:+ s0 /\ re_match r s0 = Some caps.
Proof.
  induction s as [|c s IH]; cbn [re_search].
  - destruct (re_match r "") eqn:Hm; [|done].
    intros [= ->]. by exists "", "".
  - destruct (re_match r (String c s)) eqn:Hm.
    + intros [= ->]. by exists "", (String c s).
    + intros (pre & s0 & -> & Hs0)%IH. by exists (String c pre), s0.
Qed.

Lemma prefix_app (label s : string) : String.prefix label (label +:+ s) = true.
Proof.
  induction label as [|c l IH]; [by destruct s|].
  rewrite app_cons. simpl. by destruct (ascii_dec c c).
Qed.

Lemma lit_head_prefix label r s caps :
  re_match (Seq (lit label) r) s = Some caps -> String.prefix label s = true.
Proof.
  intros (s' & s1 & c1 & [-> _]%lit_sem & _)%re_match_sound.
  apply prefix_app.
Qed.

(** A search passes over the text before the first occurrence of the
    literal its pattern starts with. *)
Lemma re_search_skip label r (pre s : string) :
  find label (pre +:+ s) = Some (String.length pre) ->
  re_search (Seq (lit label) r) (pre +:+ s) = re_search (Seq (lit label) r) s.
Proof.
  induction pre as [|c pre IH]; [done|].
  rewrite app_cons. cbn [find re_search String.length].
  destruct (String.prefix label (String c (pre +:+ s))) eqn:Hp; [done|].
  destruct (re_match (Seq (lit label) r) (String c (pre +:+ s))) eqn:Hm.
  { apply lit_head_prefix in Hm. congruence. }
  destruct (find label (pre +:+ s)) as [n|] eqn:Hf; [|done].
  intros [= ->]. by apply IH.
Qed.

Lemma re_search_here r s caps :
  re_match r s = Some caps -> re_search r s = Some caps.
Proof. intros Hm. destruct s; cbn [re_search]; by rewrite Hm. Qed.

Lemma info_match (label w1 w2 value rest : string) :
  run_of Cls.space w1 -> run_of Cls.space w2 ->
  run_of not_newline value -> clean_start value ->
  stops not_newline rest ->
  re_match (info_re (lit label))
    (label +:+ w1 +:+ ":" +:+ w2 +:+ value +:+ rest)
  = Some [value].
Proof.
  intros Hw1 Hw2 Hv Hstart Hrest.
  unfold re_match, info_re. cbn [run seqs ws]. rewrite lit_complete.
  apply plus_run_greedy; [done|done|].
  rewrite (app_cons ":" ""), app_empty_l.
  assert (Cls.just ":" ":" = true) as -> by done.
  apply plus_run_greedy; [done| |].
  { destruct Hv as [Hne _]. destruct value; [done|]. by rewrite app_cons. }
  apply plus_run_greedy; [done|done|]. by rewrite consumed_app.
Qed.

(** The captures of an identity pattern are never empty. *)
Lemma info_captures head output caps :
  re_search (info_re head) output = Some caps -> caps <> [].
Proof.
  intros (pre & s0 & _ & (s' & Hsem)%re_match_sound)%re_search_sound.
  unfold info_re in Hsem. cbn [sem seqs ws] in Hsem.
  destruct Hsem as (? & ? & _ & ? & ? & _ & ? & ? & _ & ? & ? & _
                    & ? & ? & (inner & _ & ->) & _ & ->).
  by destruct inner.
Qed.

Lemma info_field_total head key output (d : gmap string string) :
  exists d',
    info_field head key output d = Ret d' /\
    (d' = d \/ exists g, d' = <[key := strip g]> d).
Proof.
  unfold info_field.
  destruct (re_search (info_re head) output) as [[|g caps]|] eqn:Hs.
  - by apply info_captures in Hs.
  - eexists. split; [done|]. right. by exists g.
  - eexists. split; [done|]. by left.
Qed.

Lemma info_field_found label key (pre w1 w2 value rest : string)
    (d : gmap string string) :
  run_of Cls.space w1 -> run_of Cls.space w2 ->
  run_of not_newline value -> clean_start value ->
  stops not_newline rest ->
  find label (pre +:+ label +:+ w1 +:+ ":" +:+ w2 +:+ value +:+ rest)
  = Some (String.length pre) ->
  info_field (lit label) key
    (pre +:+ label +:+ w1 +:+ ":" +:+ w2 +:+ value +:+ rest) d
  = Ret (<[key := strip value]> d).
Proof.
  intros Hw1 Hw2 Hv Hstart Hrest Hfind. unfold info_field, info_re.
  rewrite re_search_skip by done.
  by rewrite (re_search_here _ _ [value]) by by apply info_match.
Qed.

(** The keys of the identity record. *)
Definition identity_keys : list string :=
  ["sw_version"; "hw_version"; "manufacturer"; "model"; "serial_number"].

(** The four labels that are plain text, with their keys. *)
Definition identity_labels : list (string * string) :=
  [ ("Bootbase Version", "hw_version"); ("Vendor Name", "manufacturer");
    ("Product Model", "model"); ("Serial Number", "serial_number") ].

(** Every entry is an identity field, stripped of blanks. *)
Definition identity_ok (info : gmap string string) : Prop :=
  forall k v, info !! k = Some v -> k ∈ identity_keys /\ strip v = v.

Lemma info_field_ok head key output (d d' : gmap string string) :
  key ∈ identity_keys -> identity_ok d ->
  info_field head key output d = Ret d' -> identity_ok d'.
Proof.
  intros Hkey Hd Hf.
  destruct (info_field_total head key output d) as (d2 & Hd2 & Hcases).
  rewrite Hf in Hd2. injection Hd2 as <-.
  destruct Hcases as [->|[g ->]]; [done|].
  intros k v. rewrite lookup_insert. case_decide as Hk.
  - intros [= <-]. subst k. split; [done|apply strip_strip].
  - apply Hd.
Qed.

Lemma info_field_other head key output (d d' : gmap string string) k :
  k <> key -> info_field head key output d = Ret d' -> d' !! k = d !! k.
Proof.
  intros Hk Hf.
  destruct (info_field_total head key output d) as (d2 & Hd2 & Hcases).
  rewrite Hf in Hd2. injection Hd2 as <-.
  destruct Hcases as [->|[g ->]]; [done|]. by rewrite lookup_insert_ne.
Qed.

Ltac next_info_field H :=
  match goal with
  | |- context [ info_field ?head ?key ?output ?d ] =>
      let d' := fresh "info" in
      destruct (info_field_total head key output d) as (d' & H & _);
      rewrite H
  end.

(** X10.  [get_device_info] never raises: it returns a mapping whose
    keys are among sw_version, hw_version, manufacturer, model and
    serial_number and whose values carry no blank at either end; when the
    session fails the mapping is empty. *)
Theorem get_device_info_is_partial_identity :
  forall dev,
    exists info,
      get_device_info dev = Ret info /\
      identity_ok info /\
      (forall e, _execute_ssh_command dev "sys atsh" = Raise e -> info = ∅).
Proof.
  intros dev. unfold get_device_info.
  destruct (_execute_ssh_command dev "sys atsh") as [output|e];
    [|by exists ∅].
  assert (identity_ok ∅) as H0 by (by intros k v ?).
  next_info_field H1. next_info_field H2. next_info_field H3.
  next_info_field H4. next_info_field H5.
  eexists. split; [done|]. split; [|done].
  apply info_field_ok in H1; [|set_solver..].
  apply info_field_ok in H2; [|set_solver..].
  apply info_field_ok in H3; [|set_solver..].
  apply info_field_ok in H4; [|set_solver..].
  by apply info_field_ok in H5; [|set_solver..].
Qed.

(** X11.  When the answer to "sys atsh" holds one of the labels
    Bootbase Version, Vendor Name, Product Model or Serial Number, at its
    first occurrence followed by blanks, a colon, blanks and a value that
    runs to the end of the line, the identity record maps the key of that
    label to the value with the blanks at its ends removed. *)
Theorem identity_field_is_stripped_value :
  forall dev label key (pre w1 w2 value rest : string),
    (label, key) ∈ identity_labels ->
    _execute_ssh_command dev "sys atsh"
    = Ret (pre +:+ label +:+ w1 +:+ ":" +:+ w2 +:+ value +:+ rest) ->
    find label (pre +:+ label +:+ w1 +:+ ":" +:+ w2 +:+ value +:+ rest)
    = Some (String.length pre) ->
    run_of Cls.space w1 -> run_of Cls.space w2 ->
    run_of not_newline value -> clean_start value ->
    stops not_newline rest ->
    exists info,
      get_device_info dev = Ret info /\ info !! key = Some (strip value).
Proof.
  intros dev label key pre w1 w2 value rest Hin Hexec Hfind
    Hw1 Hw2 Hv Hstart Hrest.
  pose proof (fun d => info_field_found label key pre w1 w2 value rest d
                         Hw1 Hw2 Hv Hstart Hrest Hfind) as Hfound.
  unfold get_device_info. rewrite Hexec.
  unfold identity_labels in Hin. rewrite !elem_of_cons, elem_of_nil in Hin.
  destruct Hin as [[= -> ->]|[[= -> ->]|[[= -> ->]|[[= -> ->]|[]]]]];
    next_info_field H1; next_info_field H2; next_info_field H3;
    next_info_field H4; next_info_field H5;
    (eexists; split; [done|]);
    repeat match goal with
      | H : info_field _ ?k _ _ = Ret _ |- _ !! ?key = _ =>
          lazymatch k with
          | key => fail
          | _ => apply (info_field_other _ _ _ _ _ key) in H; [|done]
          end
      end;
    match goal with
    | H : info_field _ _ _ ?d = Ret ?d' |- _ =>
        rewrite Hfound in H; injection H as <-
    end;
    repeat match goal with H : _ !! _ = _ !! _ |- _ => rewrite H; clear H end;
    apply lookup_insert_eq.
Qed.

(** The answer of a device whose lines end in CR LF. *)
Definition sample_identity : string :=
  "Vendor Name     : MitraStar" +:+ String "013" (String newline
  "Serial Number   : ABC123" +:+ String "013" (String newline "")).

Lemma identity_field_is_stripped_value_witness :
  exists info,
    get_device_info
      (Session (Ret ()) (Ret ()) (Raise TimeoutError)
         (fun _ => Exchange (Ret ()) (Ret sample_identity)) (Ret ()))
    = Ret info /\
    info !! "serial_number" = Some "ABC123".
Proof.
  apply (identity_field_is_stripped_value
           (Session (Ret ()) (Ret ()) (Raise TimeoutError)
              (fun _ => Exchange (Ret ()) (Ret sample_identity)) (Ret ()))
           "Serial Number" "serial_number"
           ("Vendor Name     : MitraStar" +:+ String "013" (String newline ""))
           "   " " " ("ABC123" +:+ String "013" "") (String newline ""));
    try (split; [discriminate|reflexivity]); try reflexivity.
  repeat constructor.
Defined.

(** * Further properties of the extractors *)

(** ** Lines are idempotent *)

Lemma stats_step_idempotent ns lead re record (st st' : pstate) line :
  (forall caps, re_match re line = Some caps ->
                row_record ns lead record caps) ->
  stats_step re record st line = Ret st' ->
  stats_step re record st' line = Ret st'.
Proof.
  intros Hrec. destruct st as [d cur]. unfold stats_step.
  destruct (contains "Received Counters:" line); [by intros [= <-]|].
  destruct (contains "Transmitted Counters:" line); [by intros [= <-]|].
  destruct (re_match re line) as [caps|] eqn:Hm; [|by intros [= <-]].
  destruct cur as [sec|]; [|by intros [= <-]].
  destruct (Hrec caps eq_refl) as [(name & v & ds & _ & Hg)|[_ Hg]];
    rewrite !Hg; [|done].
  cbn [mbind res_bind].
  remember (list_to_map (group ns name sec (lead, v) ds) : data) as g.
  intros [= <-]. rewrite Hg, <-Heqg. cbn [mbind res_bind].
  by rewrite (assoc_L (∪)), (idemp_L (∪) g).
Qed.

(** X12.  Reading a line a second time changes nothing: for either
    extractor, the state after a line is a fixed point of that line, so a
    row or header repeated in a report is harmless. *)
Theorem line_is_idempotent :
  forall (st st' : pstate) line,
    (lan_step st line = Ret st' -> lan_step st' line = Ret st')
    /\ (wan_step st line = Ret st' -> wan_step st' line = Ret st').
Proof.
  intros st st' line. split.
  - apply (stats_step_idempotent "lan" "status").
    intros caps. apply lan_row_record.
  - apply (stats_step_idempotent "wan" "vlan_id").
    intros caps. apply wan_row_record.
Qed.

Lemma line_is_idempotent_witness :
  lan_step
    (list_to_map
       (group "lan" "eth1" Rx ("status", "Up") sample_fields.*2) ∪ ∅,
     Some Rx)
    (lan_row "   " "eth1" "     " "Up" sample_fields "")
  = Ret (list_to_map
           (group "lan" "eth1" Rx ("status", "Up") sample_fields.*2) ∪ ∅,
         Some Rx).
Proof.
  apply (proj1 (line_is_idempotent (∅, Some Rx) _
                  (lan_row "   " "eth1" "     " "Up" sample_fields ""))).
  apply lan_step_row;
    try (split; [discriminate|reflexivity]); try reflexivity.
  - apply list_elem_of_here.
  - apply sample_fields_ok.
  - apply sample_fields_fit.
Defined.

(** ** Text without a section header *)

Lemma prefix_inv (needle hay : string) :
  String.prefix needle hay = true -> exists b, hay = needle +:+ b.
Proof.
  revert hay. induction needle as [|c n IH]; intros hay.
  - intros _. by exists hay.
  - destruct hay as [|c' h]; [done|]. simpl.
    destruct (ascii_dec c c') as [->|]; [|done].
    intros (b & ->)%IH. by exists b.
Qed.

Lemma contains_here (needle hay : string) :
  String.prefix needle hay = true -> contains needle hay = true.
Proof. intros Hp. destruct hay; cbn [contains]; by rewrite Hp. Qed.

(** [needle in hay] says that [hay] has [needle] somewhere inside. *)
Lemma contains_infix (needle hay : string) :
  contains needle hay = true <-> exists a b, hay = a +:+ needle +:+ b.
Proof.
  split.
  - induction hay as [|c h IH]; cbn [contains].
    + destruct (String.prefix needle "") eqn:Hp; [|done]. intros _.
      apply prefix_inv in Hp as (b & Hb). by exists "", b.
    + destruct (String.prefix needle (String c h)) eqn:Hp.
      * intros _. apply prefix_inv in Hp as (b & Hb). by exists "", b.
      * intros (a & b & ->)%IH. by exists (String c a), b.
  - intros (a & b & ->). induction a as [|c a IH].
    + rewrite app_empty_l. apply contains_here, prefix_app.
    + rewrite app_cons. cbn [contains]. rewrite IH.
      by destruct (String.prefix _ _).
Qed.

(** Every line of a text is a piece of that text. *)
Lemma split_lines_pieces (s : string) :
  exists l ls,
    split_lines s = l :: ls /\
    (exists b, s = l +:+ b) /\
    forall line, line ∈ l :: ls -> exists a b, s = a +:+ line +:+ b.
Proof.
  induction s as [|c s (l & ls & Hs & (b & Hb) & Hin)]; cbn [split_lines].
  - exists "", []. split; [done|]. split; [by exists ""|].
    intros line ->%list_elem_of_singleton. by exists "", "".
  - rewrite Hs. destruct (Ascii.eqb c newline).
    + exists "", (l :: ls). split; [done|]. split; [by eexists|].
      intros line [->|Hl]%elem_of_cons; [by exists "", (String c s)|].
      destruct (Hin _ Hl) as (a & b' & ->). by exists (String c a), b'.
    + exists (String c l), ls. split; [done|].
      split; [exists b; by rewrite Hb at 1|].
      intros line [->|Hl]%elem_of_cons.
      * exists "", b. by rewrite Hb at 1.
      * destruct (Hin line ltac:(by right)) as (a & b' & ->).
        by exists (String c a), b'.
Qed.

Lemma line_contains (needle s line : string) :
  line ∈ split_lines s ->
  contains needle line = true -> contains needle s = true.
Proof.
  destruct (split_lines_pieces s) as (l & ls & -> & _ & Hin).
  intros (a & b & ->)%Hin (a' & b' & ->)%contains_infix.
  apply contains_infix. exists (a +:+ a'), (b' +:+ b).
  by rewrite !sapp_assoc.
Qed.

(** X13.  A text that carries neither "Received Counters:" nor
    "Transmitted Counters:" yields the empty mapping from both the LAN
    and the WAN extractor, whatever rows it holds: rows count only inside
    a section. *)
Theorem no_header_no_metrics :
  forall output,
    contains "Received Counters:" output = false ->
    contains "Transmitted Counters:" output = false ->
    _parse_lan_stats output = Ret ∅ /\ _parse_wan_stats output = Ret ∅.
Proof.
  intros output Hrx Htx.
  assert (Forall (fun line => contains "Received Counters:" line = false /\
                              contains "Transmitted Counters:" line = false)
            (split_lines output)) as Hlines.
  { apply Forall_forall. intros line Hin. split.
    - destruct (contains "Received Counters:" line) eqn:Hc; [|done].
      apply (line_contains _ output) in Hc; [congruence|done].
    - destruct (contains "Transmitted Counters:" line) eqn:Hc; [|done].
      apply (line_contains _ output) in Hc; [congruence|done]. }
  unfold _parse_lan_stats, _parse_wan_stats, lan_step, wan_step.
  by rewrite !for_each_outside.
Qed.

Lemma no_header_no_metrics_witness :
  _parse_lan_stats sample_row = Ret ∅ /\ _parse_wan_stats sample_row = Ret ∅.
Proof. apply (no_header_no_metrics sample_row); reflexivity. Defined.

(** ** The shape of what the extractors return *)

(** An entry follows the scheme of its extractor: its key is
    [namespace_interface_section_field]; under the leading field the
    value is a string, under a counter field a non-negative integer. *)
Definition entry_in_scheme (ns lead : string) (k : string) (v : value)
  : Prop :=
  exists name sec,
    (k = metric_key ns name sec lead /\ exists s, v = VStr s)
    \/ (exists f n, f ∈ numeric_fields /\ k = metric_key ns name sec f /\
                    v = VInt n /\ (0 <= n)%Z).

Lemma digits_val_nonneg s :
  forall acc n, (0 <= acc)%Z -> digits_val acc s = Some n -> (0 <= n)%Z.
Proof.
  induction s as [|c s IH]; intros acc n Hacc; simpl.
  - by intros [= <-].
  - destruct (Cls.digit c) eqn:Hc; [|done]. apply IH.
    assert (0 <= digit_val c)%Z; [|lia].
    revert Hc. unfold digit_val, Cls.digit, Cls.between.
    intros [?%N.leb_le _]%andb_true_iff. lia.
Qed.

Lemma int_of_nonneg s : (0 <= int_of s)%Z.
Proof.
  unfold int_of. destruct (digits_val 0 s) as [n|] eqn:Hn; [|done].
  by eapply digits_val_nonneg.
Qed.

Lemma group_in_scheme ns name sec lead lead_value (ds : list string) k v :
  (k, v) ∈ group ns name sec (lead, lead_value) ds ->
  entry_in_scheme ns lead k v.
Proof.
  unfold group. intros [[= -> ->]|Hin]%elem_of_cons; exists name, sec.
  - left. split; [done|]. by eexists.
  - right. apply elem_of_lookup_zip_with in Hin
      as (i & f & x & [= -> ->] & Hf & _).
    exists f, (int_of x). split; [by eapply list_elem_of_lookup_2|].
    split; [done|]. split; [done|]. apply int_of_nonneg.
Qed.

Lemma nothing_or_group_in_scheme ns lead (before after : data) :
  nothing_or_group ns lead before after ->
  map_Forall (entry_in_scheme ns lead) before ->
  map_Forall (entry_in_scheme ns lead) after.
Proof.
  intros [->|(name & sec & v & ds & _ & ->)] Hbefore; [done|].
  intros k x [Hg|[_ Hd]]%lookup_union_Some_raw.
  - apply elem_of_list_to_map_2 in Hg. by eapply group_in_scheme.
  - by apply Hbefore.
Qed.

Lemma parsed_in_scheme ns lead re record (lines : list string) :
  (forall line caps, re_match re line = Some caps ->
                     row_record ns lead record caps) ->
  (st ← for_each (stats_step re record) (∅, None) lines; Ret st.1)
  = Raise ValueError
  \/ exists d,
       (st ← for_each (stats_step re record) (∅, None) lines; Ret st.1)
       = Ret d /\
       map_Forall (entry_in_scheme ns lead) d.
Proof.
  intros Hrec.
  destruct (for_each_cases
              (fun st : pstate => map_Forall (entry_in_scheme ns lead) st.1)
              (stats_step re record)) with (xs := lines)
    (st := ((∅ : data), @None section_tag)) as [(st' & -> & Hst')| ->].
  - intros st line Hst.
    destruct (stats_step_all_or_nothing ns lead re record st line (Hrec line))
      as [(st' & Hstep & Hgroup)|[Hstep _]]; [left|by right].
    exists st'. split; [done|]. by eapply nothing_or_group_in_scheme.
  - apply map_Forall_empty.
  - right. by eexists.
  - by left.
Qed.

(** X14.  Whatever the text, the LAN and the WAN extractor either raise
    ValueError (a counter too long for [int]) or return a mapping in
    which every entry follows the key scheme of its namespace: the status
    (LAN) or VLAN id (WAN) of an interface and section is a string and
    each of the eight counters is a non-negative integer. *)
Theorem parsed_entries_follow_scheme :
  forall output,
    (_parse_lan_stats output = Raise ValueError
     \/ exists d, _parse_lan_stats output = Ret d /\
                  map_Forall (entry_in_scheme "lan" "status") d)
    /\ (_parse_wan_stats output = Raise ValueError
        \/ exists d, _parse_wan_stats output = Ret d /\
                     map_Forall (entry_in_scheme "wan" "vlan_id") d).
Proof.
  intros output. split.
  - apply parsed_in_scheme. apply lan_row_record.
  - apply parsed_in_scheme. apply wan_row_record.
Qed.

(** ** The laser extractor *)

(** The five readings: label, unit and key. *)
Definition laser_fields : list (string * string * string) :=
  [ ("Rx Optical Power", "dBm", "laser_rx_power");
    ("Tx Optical Power", "dBm", "laser_tx_power");
    ("Tx Bias Current", "mA", "laser_bias_current");
    ("Supply voltage", "V", "laser_voltage");
    ("SFF Temperature", "C", "laser_temperature") ].

Definition laser_keys : list string :=
  [ "laser_rx_power"; "laser_tx_power"; "laser_bias_current";
    "laser_voltage"; "laser_temperature" ].

Lemma numch_not_space c : Cls.numch c = true -> Cls.space c = false.
Proof. by_cases_on_char c. Qed.

Lemma space_not_numch c : Cls.space c = true -> Cls.numch c = false.
Proof. by_cases_on_char c. Qed.

Lemma laser_captures label unit output caps :
  re_search (laser_re label unit) output = Some caps ->
  exists g, caps = [g] /\ run_of Cls.numch g.
Proof.
  intros (pre & s0 & _ & (s' & Hsem)%re_match_sound)%re_search_sound.
  unfold laser_re in Hsem. cbn [sem seqs ws] in Hsem.
  destruct Hsem as (s1 & c1 & [-> ->]%lit_sem &
                    s2 & c2 & (w1 & -> & _ & ->) &
                    s3 & c3 & (eq & -> & _ & ->) &
                    s4 & c4 & (w2 & -> & _ & ->) &
                    s5 & c5 & (inner & (g & -> & Hg & ->) & ->) &
                    s6 & c6 & (w3 & -> & _ & ->) &
                    s7 & c7 & [-> ->]%lit_sem & -> & ->).
  exists g. by rewrite consumed_app.
Qed.

Lemma py_float_error s e : py_float s = Raise e -> e = ValueError.
Proof.
  assert (forall t, unsigned_float t = Raise e -> e = ValueError) as Hu.
  { intros t. unfold unsigned_float. repeat case_match; congruence. }
  unfold py_float. repeat case_match; try apply Hu.
  destruct (unsigned_float _) eqn:Hf; [done|].
  cbn [mbind res_bind]. intros [= <-]. by eapply Hu.
Qed.

Lemma laser_field_cases label unit key output (d : data) :
  laser_field label unit key output d = Raise ValueError
  \/ exists d',
       laser_field label unit key output d = Ret d' /\
       (d' = d \/ exists q, d' = <[key := VFloat q]> d).
Proof.
  unfold laser_field.
  destruct (re_search (laser_re label unit) output) as [caps|] eqn:Hs;
    [|right; eexists; split; [done|by left]].
  apply laser_captures in Hs as (g & -> & _).
  destruct (py_float g) as [q|e] eqn:Hq; cbn [mbind res_bind].
  - right. eexists. split; [done|]. right. by exists q.
  - left. by apply py_float_error in Hq as ->.
Qed.

(** Every entry is one of the five readings, a float. *)
Definition laser_ok (d : data) : Prop :=
  forall k v, d !! k = Some v -> k ∈ laser_keys /\ exists q, v = VFloat q.

Lemma laser_field_ok label unit key output (d d' : data) :
  key ∈ laser_keys -> laser_ok d ->
  laser_field label unit key output d = Ret d' -> laser_ok d'.
Proof.
  intros Hkey Hd Hf.
  destruct (laser_field_cases label unit key output d)
    as [Hr|(d2 & Hd2 & Hcases)]; [congruence|].
  rewrite Hf in Hd2. injection Hd2 as <-.
  destruct Hcases as [->|[q ->]]; [done|].
  intros k v. rewrite lookup_insert. case_decide as Hk.
  - intros [= <-]. subst k. split; [done|by eexists].
  - apply Hd.
Qed.

Ltac next_laser_field H :=
  match goal with
  | |- context [ laser_field ?label ?unit ?key ?output ?d ] =>
      let d' := fresh "d" in
      destruct (laser_field_cases label unit key output d)
        as [H|(d' & H & _)];
      rewrite H; cbn [mbind res_bind]; [by left|]
  end.

(** X15.  The laser extractor either raises ValueError, and nothing
    else, or returns a mapping whose keys are among the five laser keys
    and whose values are floats. *)
Theorem laser_result_shape :
  forall output,
    _parse_laser_stats output = Raise ValueError
    \/ exists d, _parse_laser_stats output = Ret d /\ laser_ok d.
Proof.
  intros output. unfold _parse_laser_stats.
  assert (laser_ok ∅) as H0 by (by intros k v ?).
  next_laser_field H1. next_laser_field H2. next_laser_field H3.
  next_laser_field H4. next_laser_field H5.
  right. eexists. split; [done|].
  apply laser_field_ok in H1; [|set_solver..].
  apply laser_field_ok in H2; [|set_solver..].
  apply laser_field_ok in H3; [|set_solver..].
  apply laser_field_ok in H4; [|set_solver..].
  by apply laser_field_ok in H5; [|set_solver..].
Qed.

Lemma laser_field_raises label unit key output (d : data) g :
  re_search (laser_re label unit) output = Some [g] ->
  py_float g = Raise ValueError ->
  laser_field label unit key output d = Raise ValueError.
Proof. unfold laser_field. by intros -> ->. Qed.

(** X16.  One reading whose number is not a float literal costs all
    five: when the pattern of any of the readings finds a number that
    [float] rejects, the laser extractor raises ValueError, whatever the
    other readings hold. *)
Theorem one_bad_reading_discards_all :
  forall output label unit key g,
    (label, unit, key) ∈ laser_fields ->
    re_search (laser_re label unit) output = Some [g] ->
    py_float g = Raise ValueError ->
    _parse_laser_stats output = Raise ValueError.
Proof.
  intros output label unit key g Hin Hs Hg.
  pose proof (fun d => laser_field_raises label unit key output d g Hs Hg)
    as Hbad.
  unfold laser_fields in Hin. rewrite !elem_of_cons, elem_of_nil in Hin.
  unfold _parse_laser_stats.
  destruct Hin as [[= -> -> ->]|[[= -> -> ->]|[[= -> -> ->]|[[= -> -> ->]
                  |[[= -> -> ->]|[]]]]]];
    repeat first
      [ by rewrite Hbad
      | match goal with
        | |- context [ laser_field ?l ?u ?k ?o ?d ] =>
            let d' := fresh "d" in
            let H := fresh "H" in
            destruct (laser_field_cases l u k o d) as [H|(d' & H & _)];
            rewrite H; cbn [mbind res_bind]; [done|]
        end ].
Qed.

Definition one_bad_reading : string :=
  "Rx Optical Power = -21.5 dBm, SFF Temperature = 4.1.5 C".

Lemma one_bad_reading_discards_all_witness :
  _parse_laser_stats one_bad_reading = Raise ValueError.
Proof.
  apply (one_bad_reading_discards_all one_bad_reading
           "SFF Temperature" "C" "laser_temperature" "4.1.5").
  - repeat constructor.
  - reflexivity.
  - reflexivity.
Defined.

Lemma laser_match (label unit w1 w2 num w3 rest : string) :
  run_of Cls.space w1 -> run_of Cls.space w2 -> run_of Cls.numch num ->
  run_of Cls.space w3 -> unit <> "" -> clean_start unit ->
  re_match (laser_re label unit)
    (label +:+ w1 +:+ "=" +:+ w2 +:+ num +:+ w3 +:+ unit +:+ rest)
  = Some [num].
Proof.
  intros Hw1 Hw2 Hnum Hw3 Hne Hunit.
  unfold re_match, laser_re. cbn [run seqs ws]. rewrite lit_complete.
  apply plus_run_greedy; [done|done|].
  rewrite (app_cons "=" ""), app_empty_l.
  assert (Cls.just "=" "=" = true) as -> by done.
  apply plus_run_greedy; [done| |].
  { eapply run_of_stops; [apply numch_not_space|done]. }
  apply plus_run_greedy; [done| |].
  { eapply run_of_stops; [apply space_not_numch|done]. }
  rewrite consumed_app.
  apply plus_run_greedy; [done| |].
  { destruct unit; [done|]. by rewrite app_cons. }
  by rewrite lit_complete.
Qed.

(** X17.  Where the first occurrence of a reading's label is followed
    by blanks, an equals sign, blanks, a run of minus signs, digits and
    dots, blanks and the unit, the laser extractor converts that run:
    the reading is what [float] makes of it, and its failure is the
    extractor's. *)
Theorem laser_reading_is_converted :
  forall label unit key (pre w1 w2 num w3 rest : string) (d : data),
    run_of Cls.space w1 -> run_of Cls.space w2 -> run_of Cls.numch num ->
    run_of Cls.space w3 -> unit <> "" -> clean_start unit ->
    find label
      (pre +:+ label +:+ w1 +:+ "=" +:+ w2 +:+ num +:+ w3 +:+ unit +:+ rest)
    = Some (String.length pre) ->
    laser_field label unit key
      (pre +:+ label +:+ w1 +:+ "=" +:+ w2 +:+ num +:+ w3 +:+ unit +:+ rest) d
    = (v ← py_float num; Ret (<[key := VFloat v]> d)).
Proof.
  intros label unit key pre w1 w2 num w3 rest d
    Hw1 Hw2 Hnum Hw3 Hne Hunit Hfind.
  unfold laser_field.
  assert (re_search (laser_re label unit)
            (pre +:+ label +:+ w1 +:+ "=" +:+ w2 +:+ num +:+ w3
             +:+ unit +:+ rest) = Some [num]) as ->; [|done].
  unfold laser_re. cbn [seqs]. rewrite re_search_skip by done.
  apply re_search_here. by apply laser_match.
Qed.

Lemma laser_reading_is_converted_witness :
  laser_field "Rx Optical Power" "dBm" "laser_rx_power"
    ("lasercheck " +:+ "Rx Optical Power" +:+ "      " +:+ "=" +:+ " "
     +:+ "-21.5" +:+ " " +:+ "dBm" +:+ "") ∅
  = Ret (<["laser_rx_power" := VFloat (-215 # 10)]> ∅).
Proof.
  apply (laser_reading_is_converted "Rx Optical Power" "dBm" "laser_rx_power"
           "lasercheck " "      " " " "-21.5" " " "" ∅);
    try (split; [discriminate|reflexivity]); try reflexivity.
  discriminate.
Defined.

(** * Further properties of the snapshot *)

Lemma results_lookups (o0 o1 o2 : string) :
  let results : gmap string string :=
    <["lasercheck" := o2]> (<["showwanstats" := o1]>
      (<["showlanstats" := o0]> ∅)) in
  results !! "showlanstats" = Some o0
  /\ results !! "showwanstats" = Some o1
  /\ results !! "lasercheck" = Some o2.
Proof.
  cbn. repeat split.
Qed.

(** X18.  When the session goes through (reads may time out), the
    snapshot is the LAN entries, overlaid with the WAN entries, overlaid
    with the laser entries, each parsed from the text captured for its
    command.  An extractor that raises (the LAN or WAN one on a counter of
    more than 4300 digits, the laser one on a malformed number) ends the
    overlay there: the snapshot is what the earlier extractors gave, and
    the poll still counts as a success. *)
Theorem snapshot_is_overlay :
  forall dev,
    quiet dev 3 ->
    async_update_data dev
    = match _parse_lan_stats (captured (read (exchange_at dev 0))) with
      | Raise _ => Ret ∅
      | Ret lan =>
          match _parse_wan_stats (captured (read (exchange_at dev 1))) with
          | Raise _ => Ret (lan ∪ ∅)
          | Ret wan =>
              match
                _parse_laser_stats (captured (read (exchange_at dev 2)))
              with
              | Raise _ => Ret (wan ∪ (lan ∪ ∅))
              | Ret laser => Ret (laser ∪ (wan ∪ (lan ∪ ∅)))
              end
          end
      end.
Proof.
  intros dev [Hc Hp Hb Hw Hr].
  unfold async_update_data, get_all_data, _execute_multiple_commands.
  rewrite Hc, Hp. cbn [mbind res_bind].
  rewrite (capture_quiet _ Hb). cbn [mbind res_bind command_loop].
  rewrite !Hw by lia. cbn [mbind res_bind].
  rewrite !capture_quiet by (intros e; apply Hr; lia).
  cbn [mbind res_bind swallow].
  destruct (results_lookups (captured (read (exchange_at dev 0)))
              (captured (read (exchange_at dev 1)))
              (captured (read (exchange_at dev 2)))) as (H0 & H1 & H2).
  unfold parse_into. rewrite H0.
  destruct (_parse_lan_stats _) as [lan|e0]; [|done]. cbn [mbind res_bind].
  rewrite H1.
  destruct (_parse_wan_stats _) as [wan|e1]; [|done]. cbn [mbind res_bind].
  rewrite H2.
  by destruct (_parse_laser_stats _).
Qed.

Lemma snapshot_is_overlay_witness :
  async_update_data second_read_times_out
  = match
      _parse_lan_stats
        (captured (read (exchange_at second_read_times_out 0)))
    with
    | Raise _ => Ret ∅
    | Ret lan =>
        match
          _parse_wan_stats
            (captured (read (exchange_at second_read_times_out 1)))
        with
        | Raise _ => Ret (lan ∪ ∅)
        | Ret wan =>
            match
              _parse_laser_stats
                (captured (read (exchange_at second_read_times_out 2)))
            with
            | Raise _ => Ret (wan ∪ (lan ∪ ∅))
            | Ret laser => Ret (laser ∪ (wan ∪ (lan ∪ ∅)))
            end
        end
    end.
Proof.
  apply (snapshot_is_overlay second_read_times_out).
  split; try reflexivity.
  - simpl. intros e [= <-]. reflexivity.
  - intros [|[|[|i]]] Hi; reflexivity.
  - intros [|[|[|i]]] e Hi; simpl; try discriminate.
    intros [= <-]. reflexivity.
Defined.

(** ** The later row wins *)

Lemma group_keys ns name sec lead lead_value (ds : list string) :
  length ds = 8%nat ->
  (group ns name sec (lead, lead_value) ds).*1
  = metric_key ns name sec <$> lead :: numeric_fields.
Proof.
  intros Hlen. do 8 (destruct ds as [|? ds]; [done|]). by destruct ds.
Qed.

Lemma group_overrides ns name sec lead v1 v2 (ds1 ds2 : list string)
    (d : data) :
  length ds1 = 8%nat -> length ds2 = 8%nat ->
  list_to_map (group ns name sec (lead, v2) ds2)
    ∪ (list_to_map (group ns name sec (lead, v1) ds1) ∪ d)
  = list_to_map (group ns name sec (lead, v2) ds2) ∪ d.
Proof.
  intros H1 H2. apply map_eq. intros k. rewrite !lookup_union.
  destruct (list_to_map (group ns name sec (lead, v2) ds2) !! k)
    as [x|] eqn:Hk.
  - by rewrite !(union_Some_l x).
  - apply not_elem_of_list_to_map in Hk.
    rewrite group_keys in Hk by done.
    rewrite <-(group_keys ns name sec lead v1 ds1) in Hk by done.
    apply (not_elem_of_list_to_map (M := gmap string)) in Hk.
    by rewrite Hk, !(left_id_L None _).
Qed.

(** X19.  Of two well-formed LAN rows for the same interface read in
    one section, whose counters have at most 4300 digits each, only the
    later one counts: every field of the earlier row is replaced, none
    survives. *)
Theorem later_row_wins :
  forall (d : data) sec name w0 w1 status fields trailing
         w0' w1' status' fields' trailing',
    run_of Cls.space w0 -> run_of Cls.word name -> run_of Cls.space w1 ->
    status ∈ statuses -> length fields = 8%nat -> Forall column_ok fields ->
    Forall counter_fits fields ->
    all_chars Cls.space trailing = true ->
    run_of Cls.space w0' -> run_of Cls.space w1' ->
    status' ∈ statuses -> length fields' = 8%nat ->
    Forall column_ok fields' -> Forall counter_fits fields' ->
    all_chars Cls.space trailing' = true ->
    for_each lan_step (d, Some sec)
      [ lan_row w0 name w1 status fields trailing;
        lan_row w0' name w1' status' fields' trailing' ]
    = for_each lan_step (d, Some sec)
        [ lan_row w0' name w1' status' fields' trailing' ].
Proof.
  intros d sec name w0 w1 status fields trailing
    w0' w1' status' fields' trailing'
    Hw0 Hname Hw1 Hst Hlen Hok Hfit Htr Hw0' Hw1' Hst' Hlen' Hok' Hfit' Htr'.
  cbn [for_each]. rewrite !lan_step_row by done. cbn [mbind res_bind].
  rewrite !lan_step_row by done. cbn [mbind res_bind].
  by rewrite group_overrides by by rewrite length_fmap.
Qed.

Lemma later_row_wins_witness :
  for_each lan_step (∅, Some Rx)
    [ lan_row "   " "eth1" "     " "Down" sample_fields "";
      lan_row "   " "eth1" "     " "Up" sample_fields "" ]
  = for_each lan_step (∅, Some Rx)
      [ lan_row "   " "eth1" "     " "Up" sample_fields "" ].
Proof.
  apply (later_row_wins ∅ Rx "eth1" "   " "     " "Down" sample_fields ""
           "   " "     " "Up" sample_fields "");
    try (split; [discriminate|reflexivity]); try reflexivity;
    try apply sample_fields_ok; try apply sample_fields_fit.
  - apply list_elem_of_further, list_elem_of_further, list_elem_of_here.
  - apply list_elem_of_here.
Defined.

(** * The entities of [sensor.py] *)

(** An entity as far as its data goes: its class and the key it reads.
    Names, units, device classes and icons are display data and are left
    out. *)
Inductive entity : Type :=
| Plain (key : string)            (* MitrastarSensor *)
| Speed (source_key : string).    (* MitrastarSpeedSensor *)

Definition entity_key (e : entity) : string :=
  match e with
  | Plain key => key
  | Speed source_key => source_key
  end.

(** [_attr_unique_id]. *)
Definition unique_id (e : entity) : string :=
  match e with
  | Plain key => "mitrastar_" +:+ key
  | Speed source_key => "mitrastar_" +:+ source_key +:+ "_speed"
  end.

Definition packet_metrics : list string :=
  ["total_packets"; "multicast_packets"; "unicast_packets";
   "broadcast_packets"].

Definition error_metrics : list string := ["errors"; "drops"].

(** The entities [async_setup_entry] appends, in its order. *)
Definition async_setup_entry : list entity :=
  (interface ← ["eth0"; "eth1"; "eth2"; "eth3"; "eth4"];
   direction ← ["rx"; "tx"];
   let prefix := "lan_" +:+ interface +:+ "_" +:+ direction in
   Plain (prefix +:+ "_status")
   :: Plain (prefix +:+ "_total_bytes")
   :: ((fun metric => Plain (prefix +:+ "_" +:+ metric)) <$> packet_metrics)
   ++ ((fun metric => Plain (prefix +:+ "_" +:+ metric)) <$> error_metrics))
  ++ (interface ← ["eth1"; "eth3"; "eth4"];
      direction ← ["rx"; "tx"];
      let prefix := "lan_" +:+ interface +:+ "_" +:+ direction in
      [Speed (prefix +:+ "_total_bytes")])
  ++ (interface ← ["veip0.2"; "veip0.3"; "ppp0.1"];
      direction ← ["rx"; "tx"];
      let prefix := "wan_" +:+ interface +:+ "_" +:+ direction in
      Plain (prefix +:+ "_total_bytes")
      :: ((fun metric => Plain (prefix +:+ "_" +:+ metric)) <$> packet_metrics)
      ++ ((fun metric => Plain (prefix +:+ "_" +:+ metric)) <$> error_metrics))
  ++ (direction ← ["rx"; "tx"];
      let prefix := "wan_ppp0.1_" +:+ direction in
      [Speed (prefix +:+ "_total_bytes")])
  ++ [ Plain "laser_rx_power"; Plain "laser_tx_power";
       Plain "laser_bias_current"; Plain "laser_voltage";
       Plain "laser_temperature" ].

(** A key one of the extractors writes: some text makes
    [_parse_lan_stats], [_parse_wan_stats] or [_parse_laser_stats] return
    a mapping that holds the key. *)
Definition writable (k : string) : Prop :=
  exists output d,
    (_parse_lan_stats output = Ret d
     \/ _parse_wan_stats output = Ret d
     \/ _parse_laser_stats output = Ret d)
    /\ is_Some (d !! k).

(** The header line of a section. *)
Definition header_text (sec : section_tag) : string :=
  match sec with
  | Rx => "Received Counters:"
  | Tx => "Transmitted Counters:"
  end.

Lemma header_text_for sec : header_for sec (header_text sec).
Proof. destruct sec; [reflexivity|split; reflexivity]. Qed.

(** A report of [showlanstats] with one row for [name] in section
    [sec]. *)
Definition lan_report (name : string) (sec : section_tag) : string :=
  header_text sec
  +:+ String newline (lan_row "  " name "  " "Up" sample_fields "").

(** A report of [showwanstats] with one row for [name] in section
    [sec]. *)
Definition wan_report (name : string) (sec : section_tag) : string :=
  header_text sec
  +:+ String newline (wan_row "  " name (("  ", "0") :: sample_fields) "").

Lemma lan_key_written name sec f :
  run_of Cls.word name ->
  split_lines (lan_report name sec)
  = [header_text sec; lan_row "  " name "  " "Up" sample_fields ""] ->
  f ∈ "status" :: numeric_fields ->
  writable (metric_key "lan" name sec f).
Proof.
  intros Hname Hlines Hf.
  exists (lan_report name sec),
    (list_to_map (group "lan" name sec ("status", "Up") sample_fields.*2)).
  split.
  - left.
    apply (parse_lan_report _ [] (header_text sec) sec "  " name "  " "Up"
             sample_fields "");
      try (split; [discriminate|reflexivity]); try reflexivity;
      auto using header_text_for, sample_fields_ok, sample_fields_fit.
    apply list_elem_of_here.
  - rewrite <-(right_id_L ∅ (∪) (list_to_map _)).
    by apply (group_present "lan" name sec ("status", "Up")).
Qed.

Lemma wan_key_written name sec f :
  run_of Cls.nonspace name ->
  split_lines (wan_report name sec)
  = [header_text sec; wan_row "  " name (("  ", "0") :: sample_fields) ""] ->
  header_free (wan_row "  " name (("  ", "0") :: sample_fields) "") ->
  f ∈ "vlan_id" :: numeric_fields ->
  writable (metric_key "wan" name sec f).
Proof.
  intros Hname Hlines Hrow Hf.
  exists (wan_report name sec),
    (list_to_map (group "wan" name sec ("vlan_id", "0") sample_fields.*2)).
  split.
  - right. left.
    apply (parse_wan_prefix _ [] (header_text sec) sec "  " name "  " "0"
             sample_fields "");
      try (split; [discriminate|reflexivity]); try reflexivity;
      auto using header_text_for, sample_fields_ok, sample_fields_fit.
    split; (split; [discriminate|reflexivity]).
  - rewrite <-(right_id_L ∅ (∪) (list_to_map _)).
    by apply (group_present "wan" name sec ("vlan_id", "0")).
Qed.

(** A report of [lasercheck] with the one reading [label]. *)
Definition laser_report (label unit : string) : string :=
  label +:+ " = 1 " +:+ unit.

Ltac search_computed :=
  repeat match goal with
    | |- context [re_search ?r ?s] =>
        let v := eval vm_compute in (re_search r s) in
        change (re_search r s) with v
    end.

Lemma laser_key_written label unit key :
  (label, unit, key) ∈ laser_fields -> writable key.
Proof.
  intros Hin. exists (laser_report label unit), (<[key := VFloat 1]> ∅).
  split; [|rewrite lookup_insert_eq; by eexists].
  right. right. unfold laser_fields in Hin.
  repeat (apply elem_of_cons in Hin as [[= -> -> ->]|Hin];
          [unfold _parse_laser_stats, laser_field; search_computed;
           reflexivity|]).
  by apply elem_of_nil in Hin.
Qed.

Lemma direction_section (direction : string) :
  direction ∈ ["rx"; "tx"] -> exists sec, direction = section_name sec.
Proof.
  rewrite !elem_of_cons, elem_of_nil.
  intros [->|[->|[]]]; [by exists Rx|by exists Tx].
Qed.

Lemma entity_key_scheme (ns interface : string) sec (field : string) :
  (ns +:+ "_" +:+ interface +:+ "_" +:+ section_name sec) +:+ "_" +:+ field
  = metric_key ns interface sec field.
Proof. unfold metric_key. by rewrite !sapp_assoc. Qed.

Ltac field_listed :=
  unfold numeric_fields, packet_metrics, error_metrics in *;
  repeat match goal with
    | H : _ ∈ _ :: _ |- _ => apply elem_of_cons in H as [->|H]
    | H : _ ∈ [] |- _ => by apply elem_of_nil in H
    end;
  repeat first [ apply list_elem_of_here | apply list_elem_of_further ].

Ltac each_of H :=
  repeat (apply elem_of_cons in H as [->|H]); [..|by apply elem_of_nil in H].

Lemma lan_entity_written interface direction field :
  interface ∈ ["eth0"; "eth1"; "eth2"; "eth3"; "eth4"] ->
  direction ∈ ["rx"; "tx"] ->
  field ∈ "status" :: numeric_fields ->
  writable (("lan_" +:+ interface +:+ "_" +:+ direction) +:+ "_" +:+ field).
Proof.
  intros Hi (sec & ->)%direction_section Hf.
  assert (("lan_" +:+ interface +:+ "_" +:+ section_name sec) +:+ "_" +:+ field
          = metric_key "lan" interface sec field) as ->
    by exact (entity_key_scheme "lan" interface sec field).
  each_of Hi; destruct sec;
    (apply lan_key_written;
     [split; [discriminate|reflexivity]|reflexivity|done]).
Qed.

Lemma wan_entity_written interface direction field :
  interface ∈ ["veip0.2"; "veip0.3"; "ppp0.1"] ->
  direction ∈ ["rx"; "tx"] ->
  field ∈ "vlan_id" :: numeric_fields ->
  writable (("wan_" +:+ interface +:+ "_" +:+ direction) +:+ "_" +:+ field).
Proof.
  intros Hi (sec & ->)%direction_section Hf.
  assert (("wan_" +:+ interface +:+ "_" +:+ section_name sec) +:+ "_" +:+ field
          = metric_key "wan" interface sec field) as ->
    by exact (entity_key_scheme "wan" interface sec field).
  each_of Hi; destruct sec;
    (apply wan_key_written;
     [split; [discriminate|reflexivity]|reflexivity
     |split; reflexivity|done]).
Qed.

(** X20.  Every entity [async_setup_entry] creates reads a key that the
    extractors write: for each entity there is a text on which the LAN,
    the WAN or the laser extractor returns a mapping that holds the
    entity's key. *)
Theorem entities_read_writable_keys :
  forall e, e ∈ async_setup_entry -> writable (entity_key e).
Proof.
  intros e. unfold async_setup_entry.
  rewrite !elem_of_app, !list_elem_of_bind.
  intros [(i & (dir & He & Hdir)%list_elem_of_bind & Hi)
         |[(i & (dir & He & Hdir)%list_elem_of_bind & Hi)
         |[(i & (dir & He & Hdir)%list_elem_of_bind & Hi)
         |[(dir & He & Hdir)|He]]]].
  - cbn zeta in He.
    rewrite !elem_of_cons, elem_of_app, !list_elem_of_fmap in He.
    destruct He as [->|[->|[(m & -> & Hm)|(m & -> & Hm)]]]; cbn [entity_key];
      (apply lan_entity_written; [exact Hi|done|field_listed]).
  - cbn zeta in He. apply list_elem_of_singleton in He as ->.
    cbn [entity_key]. apply lan_entity_written; [|done|field_listed].
    each_of Hi; field_listed.
  - cbn zeta in He.
    rewrite !elem_of_cons, elem_of_app, !list_elem_of_fmap in He.
    destruct He as [->|[(m & -> & Hm)|(m & -> & Hm)]]; cbn [entity_key];
      (apply wan_entity_written; [exact Hi|done|field_listed]).
  - cbn zeta in He. apply list_elem_of_singleton in He as ->.
    cbn [entity_key].
    change ("wan_ppp0.1_" +:+ dir)
      with ("wan_" +:+ "ppp0.1" +:+ "_" +:+ dir).
    apply wan_entity_written; [field_listed|done|field_listed].
  - repeat (apply elem_of_cons in He as [->|He];
            [cbn [entity_key];
             eapply laser_key_written; unfold laser_fields; field_listed|]).
    by apply elem_of_nil in He.
Qed.

Lemma entities_read_writable_keys_witness :
  writable "wan_ppp0.1_rx_total_bytes".
Proof.
  apply (entities_read_writable_keys (Speed "wan_ppp0.1_rx_total_bytes")).
  vm_compute.
  repeat first [ apply list_elem_of_here | apply list_elem_of_further ].
Defined.

(** X21.  The unique ids of the entities are pairwise distinct: a speed
    entity shares its key with a plain one, and its id is told apart by
    the suffix. *)
Theorem unique_ids_are_unique : NoDup (unique_id <$> async_setup_entry).
Proof. apply (bool_decide_unpack _). by vm_compute. Qed.

(** * Instances *)

Lemma speed_none_iff_key_missing_witness :
  native_value 1 (fun _ => 0%Z) 0 ∅ settled_sensor
  = (Ret None, settled_sensor, 0%nat).
Proof.
  apply (proj1 (speed_none_iff_key_missing 0 (fun _ => 0%Z) 0 ∅
                  settled_sensor)).
  reflexivity.
Defined.

(** A session that answers "lasercheck" with a reading. *)
Definition answering_session : session :=
  Session (Ret ()) (Ret ()) (Raise TimeoutError)
    (fun _ => Exchange (Ret ()) (Ret "Rx Optical Power = -21.5 dBm"))
    (Ret ()).

Lemma test_connection_true_only_with_reading_witness :
  exists output,
    read (exchange_at answering_session 0) = Ret output /\
    contains "Rx Optical Power" output = true.
Proof.
  destruct (test_connection_true_only_with_reading answering_session)
    as (ok & Hok & Himp).
  apply Himp. vm_compute in Hok. by injection Hok as <-.
Defined.

Lemma get_device_info_is_partial_identity_witness :
  exists info,
    get_device_info
      (Session (Raise SSHError) (Ret ()) (Ret "") (fun _ => Exchange (Ret ()) (Ret ""))
         (Ret ()))
    = Ret info /\ info = ∅.
Proof.
  destruct (get_device_info_is_partial_identity
              (Session (Raise SSHError) (Ret ()) (Ret "")
                 (fun _ => Exchange (Ret ()) (Ret "")) (Ret ())))
    as (info & Hinfo & _ & Hempty).
  exists info. split; [exact Hinfo|]. apply (Hempty SSHError). reflexivity.
Defined.
